(** * GitHub Issue Analyzer: fetch, cache and analyse pipeline

    A shallow embedding of the TypeScript services of the repository

      - [GitHubService]  (github.ts): paginated fetch of open issues and the
        repository-format check;
      - [CacheService]   (cache.ts): the JSON file cache;
      - [LLMService]     (llm.ts): prompt assembly and provider dispatch;
      - [Server]         (index.ts): the /scan and /analyze handlers;

    together with the part of the JavaScript runtime they rely on: strings,
    truthiness, property access on plain objects, [JSON.stringify] and
    [JSON.parse].

    Modelling conventions.
      - A JavaScript string is a [string]: a sequence of code units, one
        [ascii] each.  Code units above U+00FF are not represented; the
        program copies them unchanged, but for the lone surrogates that
        [JSON.stringify] escapes.
      - A JavaScript number is an integer ([Z]); the only numbers of the
        program are issue identifiers and page counters, far below the
        10^21 from which JavaScript prints an exponent.
      - A function that can throw returns a [result]; [try]/[catch] is
        [try_catch].
      - The file system, the source host and the summarisation provider are
        explicit arguments. *)

From Stdlib Require Import Bool Arith ZArith List String Ascii Lia.
From Stdlib Require Import DecimalNat DecimalN DecimalFacts.
Import ListNotations.

Local Open Scope list_scope.
Local Open Scope string_scope.

(** ** Exceptions *)

Inductive result (A : Type) : Type :=
| Ok (a : A)
| Throw (message : string).
Arguments Ok {A} a.
Arguments Throw {A} message.

Definition bind {A B : Type} (r : result A) (k : A -> result B) : result B :=
  match r with
  | Ok a => k a
  | Throw m => Throw m
  end.

Definition try_catch {A : Type} (body : result A) (handler : string -> result A)
  : result A :=
  match body with
  | Ok a => Ok a
  | Throw m => handler m
  end.

Notation "x <- c1 ;; c2" := (bind c1 (fun x => c2))
  (at level 61, c1 at next level, right associativity).

(** ** JavaScript strings *)

Module JS.

(** [s.includes(c)] for a one-character search string. *)
Fixpoint includes (s : string) (c : ascii) : bool :=
  match s with
  | EmptyString => false
  | String a rest => Ascii.eqb a c || includes rest c
  end.

(** [s.split(sep)] for a one-character separator: the segments between the
    occurrences of [sep], empty segments included. *)
Fixpoint split (s : string) (sep : ascii) : list string :=
  match s with
  | EmptyString => [EmptyString]
  | String a rest =>
      if Ascii.eqb a sep then EmptyString :: split rest sep
      else match split rest sep with
           | seg :: segs => String a seg :: segs
           | [] => [String a EmptyString]
           end
  end.

(** [s.substring(start, end)]: both indices are clamped to the length and
    swapped when [start > end]. *)
Definition substring (s : string) (start end_ : nat) : string :=
  let len := String.length s in
  let a := Nat.min start len in
  let b := Nat.min end_ len in
  let from := Nat.min a b in
  let to := Nat.max a b in
  String.substring from (to - from) s.

(** [parts.join(sep)]. *)
Definition join (parts : list string) (sep : string) : string :=
  String.concat sep parts.

(** Truthiness of a string: every string but the empty one. *)
Definition truthy_string (s : string) : bool :=
  negb (String.eqb s "").

(** Number of occurrences of a code unit. *)
Fixpoint count (c : ascii) (s : string) : nat :=
  match s with
  | EmptyString => 0
  | String a rest => (if Ascii.eqb a c then 1 else 0) + count c rest
  end.

(** Decimal rendering of an integer, as [String(n)] and template literals
    give it. *)
Fixpoint digits (d : Decimal.uint) : string :=
  match d with
  | Decimal.Nil => ""
  | Decimal.D0 d => String "0" (digits d)
  | Decimal.D1 d => String "1" (digits d)
  | Decimal.D2 d => String "2" (digits d)
  | Decimal.D3 d => String "3" (digits d)
  | Decimal.D4 d => String "4" (digits d)
  | Decimal.D5 d => String "5" (digits d)
  | Decimal.D6 d => String "6" (digits d)
  | Decimal.D7 d => String "7" (digits d)
  | Decimal.D8 d => String "8" (digits d)
  | Decimal.D9 d => String "9" (digits d)
  end.

Definition number_to_string (n : Z) : string :=
  match n with
  | Z0 => "0"
  | Zpos p => digits (N.to_uint (Npos p))
  | Zneg p => String "-" (digits (N.to_uint (Npos p)))
  end.

End JS.

(** ** JSON values, [JSON.stringify] and [JSON.parse] *)

Module JSON.

Unset Elimination Schemes.
Inductive value : Type :=
| Null
| Bool (b : bool)
| Number (n : Z)
| Str (s : string)
| Array (elements : list value)
| Object (properties : list (string * value)).
Set Elimination Schemes.

Definition quote : ascii := "034".
Definition backslash : ascii := "\".
Definition newline : ascii := "010".

(** *** Serialisation *)

(** Lower-case hexadecimal digit. *)
Definition hex_digit (n : N) : ascii :=
  ascii_of_N (if n <? 10 then n + 48 else n + 87)%N.

(** QuoteJSONString, one code unit: the quote, the backslash and the
    control characters are escaped, anything else is copied. *)
Definition escape_unit (c : ascii) : string :=
  let n := N_of_ascii c in
  if Ascii.eqb c quote then String backslash (String quote "")
  else if Ascii.eqb c backslash then String backslash (String backslash "")
  else if (n =? 8)%N then String backslash "b"
  else if (n =? 9)%N then String backslash "t"
  else if (n =? 10)%N then String backslash "n"
  else if (n =? 12)%N then String backslash "f"
  else if (n =? 13)%N then String backslash "r"
  else if (n <? 32)%N then
    String backslash
      (String "u" (String "0" (String "0"
         (String (hex_digit (n / 16)) (String (hex_digit (n mod 16)) "")))))
  else String c "".

Fixpoint escape (s : string) : string :=
  match s with
  | EmptyString => ""
  | String c rest => escape_unit c ++ escape rest
  end.

Definition quote_string (s : string) : string :=
  String quote (escape s ++ String quote "").

Fixpoint spaces (n : nat) : string :=
  match n with
  | O => ""
  | S n => String " " (spaces n)
  end.

Definition line_break (indent : nat) : string :=
  String newline (spaces indent).

(** SerializeJSONProperty with a gap of two spaces, at indentation
    [indent]. *)
Fixpoint serialize (indent : nat) (v : value) : string :=
  match v with
  | Null => "null"
  | Bool true => "true"
  | Bool false => "false"
  | Number n => JS.number_to_string n
  | Str s => quote_string s
  | Array elements =>
      match elements with
      | [] => "[]"
      | _ =>
          "[" ++ line_break (indent + 2)
          ++ JS.join (map (serialize (indent + 2)) elements)
                     ("," ++ line_break (indent + 2))
          ++ line_break indent ++ "]"
      end
  | Object properties =>
      match properties with
      | [] => "{}"
      | _ =>
          "{" ++ line_break (indent + 2)
          ++ JS.join
               (map (fun p => quote_string (fst p) ++ ": "
                              ++ serialize (indent + 2) (snd p))
                    properties)
               ("," ++ line_break (indent + 2))
          ++ line_break indent ++ "}"
      end
  end.

(** [JSON.stringify(v, null, 2)]. *)
Definition stringify (v : value) : string := serialize 0 v.

(** *** Parsing *)

(** JSON white space: space, tab, line feed, carriage return. *)
Definition is_ws (c : ascii) : bool :=
  let n := N_of_ascii c in
  ((n =? 32) || (n =? 9) || (n =? 10) || (n =? 13))%N.

Fixpoint skip_ws (s : string) : string :=
  match s with
  | EmptyString => ""
  | String c rest => if is_ws c then skip_ws rest else s
  end.

Definition hex_value (c : ascii) : option N :=
  let n := N_of_ascii c in
  if ((48 <=? n) && (n <=? 57))%N then Some (n - 48)%N
  else if ((97 <=? n) && (n <=? 102))%N then Some (n - 87)%N
  else if ((65 <=? n) && (n <=? 70))%N then Some (n - 55)%N
  else None.

(** The code unit of the escape [\uXXXX]; [None] when a digit is not
    hexadecimal or the code unit is above U+00FF. *)
Definition unicode_escape (h1 h2 h3 h4 : ascii) : option ascii :=
  match hex_value h1, hex_value h2, hex_value h3, hex_value h4 with
  | Some a, Some b, Some c, Some d =>
      if ((a =? 0) && (b =? 0))%N then Some (ascii_of_N (c * 16 + d))
      else None
  | _, _, _, _ => None
  end.

(** The code unit of a one-letter escape. *)
Definition simple_escape (c : ascii) : option ascii :=
  if Ascii.eqb c quote then Some quote
  else if Ascii.eqb c backslash then Some backslash
  else if Ascii.eqb c "/" then Some "/"%char
  else if Ascii.eqb c "b" then Some (ascii_of_N 8)
  else if Ascii.eqb c "f" then Some (ascii_of_N 12)
  else if Ascii.eqb c "n" then Some (ascii_of_N 10)
  else if Ascii.eqb c "r" then Some (ascii_of_N 13)
  else if Ascii.eqb c "t" then Some (ascii_of_N 9)
  else None.

(** The characters of a string literal after its opening quote, up to the
    closing quote; the text after the literal is returned with them. *)
Fixpoint parse_chars (s : string) : option (string * string) :=
  match s with
  | EmptyString => None
  | String c rest =>
      if Ascii.eqb c quote then Some ("", rest)
      else if Ascii.eqb c backslash then
        match rest with
        | String "u" (String h1 (String h2 (String h3 (String h4 rest')))) =>
            match unicode_escape h1 h2 h3 h4, parse_chars rest' with
            | Some u, Some (str, after) => Some (String u str, after)
            | _, _ => None
            end
        | String e rest' =>
            match simple_escape e, parse_chars rest' with
            | Some u, Some (str, after) => Some (String u str, after)
            | _, _ => None
            end
        | EmptyString => None
        end
      else if (N_of_ascii c <? 32)%N then None
      else
        match parse_chars rest with
        | Some (str, after) => Some (String c str, after)
        | None => None
        end
  end.

Definition digit_of (c : ascii) : option (Decimal.uint -> Decimal.uint) :=
  match N_of_ascii c with
  | 48 => Some Decimal.D0 | 49 => Some Decimal.D1 | 50 => Some Decimal.D2
  | 51 => Some Decimal.D3 | 52 => Some Decimal.D4 | 53 => Some Decimal.D5
  | 54 => Some Decimal.D6 | 55 => Some Decimal.D7 | 56 => Some Decimal.D8
  | 57 => Some Decimal.D9 | _ => None
  end%N.

(** The longest run of decimal digits at the head of [s]. *)
Fixpoint read_digits (s : string) : Decimal.uint * string :=
  match s with
  | EmptyString => (Decimal.Nil, "")
  | String c rest =>
      match digit_of c with
      | Some d => let (ds, after) := read_digits rest in (d ds, after)
      | None => (Decimal.Nil, s)
      end
  end.

(** The integer part of a number: a single zero, or digits that start
    with a non-zero digit. *)
Definition parse_unsigned (s : string) : option (N * string) :=
  match s with
  | EmptyString => None
  | String c rest =>
      if Ascii.eqb c "0" then Some (0%N, rest)
      else match digit_of c with
           | Some _ => let (ds, after) := read_digits s in
                       Some (N.of_uint ds, after)
           | None => None
           end
  end.

Definition parse_number (s : string) : option (value * string) :=
  match s with
  | EmptyString => None
  | String c rest =>
      if Ascii.eqb c "-" then
        match parse_unsigned rest with
        | Some (n, after) => Some (Number (- Z.of_N n), after)
        | None => None
        end
      else
        match parse_unsigned s with
        | Some (n, after) => Some (Number (Z.of_N n), after)
        | None => None
        end
  end.

(** The text after the character [c], when [s] starts with it. *)
Definition expect (c : ascii) (s : string) : option string :=
  match s with
  | EmptyString => None
  | String a rest => if Ascii.eqb a c then Some rest else None
  end.

(** The value [v] when [s] starts with [word]. *)
Fixpoint keyword (word s : string) (v : value) : option (value * string) :=
  match word, s with
  | EmptyString, _ => Some (v, s)
  | String a word', String b s' =>
      if Ascii.eqb a b then keyword word' s' v else None
  | String _ _, EmptyString => None
  end.

(** CreateDataProperty on the own properties of an object: an existing key
    keeps its place and takes the new value, a new key goes last. *)
Fixpoint define (key : string) (v : value) (props : list (string * value))
  : list (string * value) :=
  match props with
  | [] => [(key, v)]
  | (k, w) :: rest =>
      if String.eqb k key then (k, v) :: rest
      else (k, w) :: define key v rest
  end.

(** Recursive descent.  Every call consumes one unit of [fuel]; a call is
    made only after a character of the text has been consumed or on the
    way into a bracket, so the length of the text bounds the fuel needed
    (see [parse]). *)
Fixpoint parse_value (fuel : nat) (s : string) : option (value * string) :=
  match fuel with
  | O => None
  | S fuel =>
      match skip_ws s with
      | EmptyString => None
      | String c rest =>
          if Ascii.eqb c "n" then keyword "ull" rest Null
          else if Ascii.eqb c "t" then keyword "rue" rest (Bool true)
          else if Ascii.eqb c "f" then keyword "alse" rest (Bool false)
          else if Ascii.eqb c quote then
            match parse_chars rest with
            | Some (str, after) => Some (Str str, after)
            | None => None
            end
          else if Ascii.eqb c "[" then
            match expect "]" (skip_ws rest) with
            | Some after => Some (Array [], after)
            | None => parse_elements fuel rest []
            end
          else if Ascii.eqb c "{" then
            match expect "}" (skip_ws rest) with
            | Some after => Some (Object [], after)
            | None => parse_members fuel rest []
            end
          else parse_number (String c rest)
      end
  end

with parse_elements (fuel : nat) (s : string) (acc : list value)
  : option (value * string) :=
  match fuel with
  | O => None
  | S fuel =>
      match parse_value fuel s with
      | Some (v, after) =>
          match expect "," (skip_ws after) with
          | Some more => parse_elements fuel more (acc ++ [v])%list
          | None =>
              match expect "]" (skip_ws after) with
              | Some rest => Some (Array (acc ++ [v])%list, rest)
              | None => None
              end
          end
      | None => None
      end
  end

with parse_members (fuel : nat) (s : string) (acc : list (string * value))
  : option (value * string) :=
  match fuel with
  | O => None
  | S fuel =>
      match expect quote (skip_ws s) with
      | Some after_quote =>
          match parse_chars after_quote with
          | Some (key, after_key) =>
              match expect ":" (skip_ws after_key) with
              | Some after_colon =>
                  match parse_value fuel after_colon with
                  | Some (v, after) =>
                      match expect "," (skip_ws after) with
                      | Some more =>
                          parse_members fuel more (define key v acc)
                      | None =>
                          match expect "}" (skip_ws after) with
                          | Some rest => Some (Object (define key v acc), rest)
                          | None => None
                          end
                      end
                  | None => None
                  end
              | None => None
              end
          | None => None
          end
      | None => None
      end
  end.

(** [JSON.parse(text)]: [None] stands for the SyntaxError.  A number with a
    fraction or an exponent, and an escape above U+00FF, are outside the
    model: JavaScript reads them, the model gives [None].  [stringify]
    writes none of them. *)
Definition parse (text : string) : option value :=
  match parse_value (S (String.length text)) text with
  | Some (v, rest) =>
      match skip_ws rest with
      | EmptyString => Some v
      | String _ _ => None
      end
  | None => None
  end.

(** *** Values that are JavaScript objects *)

(** The keys are pairwise distinct. *)
Fixpoint distinct (keys : list string) : bool :=
  match keys with
  | [] => true
  | k :: rest => negb (existsb (String.eqb k) rest) && distinct rest
  end.

(** No object of the value has two properties of the same name. *)
Fixpoint well_formed (v : value) : bool :=
  match v with
  | Array elements => forallb well_formed elements
  | Object properties =>
      distinct (map fst properties)
      && forallb (fun p => well_formed (snd p)) properties
  | _ => true
  end.

End JSON.

(** ** Property access on plain objects *)

Module JSObject.

(** A JavaScript value as the cache code meets it: a JSON value,
    [undefined], or a function or object inherited from
    [Object.prototype]. *)
Inductive jsval : Type :=
| Undefined
| Builtin (name : string)
| Json (v : JSON.value).

(** The properties a plain object inherits from [Object.prototype]. *)
Definition Object_prototype : list string :=
  [ "constructor"; "__defineGetter__"; "__defineSetter__";
    "hasOwnProperty"; "__lookupGetter__"; "__lookupSetter__";
    "isPrototypeOf"; "propertyIsEnumerable"; "toString"; "valueOf";
    "__proto__"; "toLocaleString" ].

Definition inherited (key : string) : bool :=
  existsb (String.eqb key) Object_prototype.

Fixpoint own (key : string) (props : list (string * JSON.value))
  : option JSON.value :=
  match props with
  | [] => None
  | (k, v) :: rest => if String.eqb k key then Some v else own key rest
  end.

(** The TypeError of a property access on a value that has none; the text
    of its message is not modelled. *)
Definition type_error : string := "TypeError".

(** [key in obj].  The receivers modelled are plain objects, [null] and the
    primitives, for which JavaScript raises the TypeError.  An array is not
    modelled: JavaScript answers for it, the model reports a TypeError.  The
    program never writes an array as its cache; a statement that depends on
    the receiver assumes that [loadCache] returned an object. *)
Definition has_property (key : string) (obj : JSON.value) : result bool :=
  match obj with
  | JSON.Object props =>
      Ok (match own key props with
          | Some _ => true
          | None => inherited key
          end)
  | _ => Throw type_error
  end.

(** [obj[key]].  The receivers modelled are plain objects and [null].
    Arrays, numbers, strings and booleans are not: JavaScript looks the key
    up on them, the model reports a TypeError. *)
Definition get (obj : JSON.value) (key : string) : result jsval :=
  match obj with
  | JSON.Object props =>
      Ok (match own key props with
          | Some v => Json v
          | None => if inherited key then Builtin key else Undefined
          end)
  | _ => Throw type_error
  end.

(** [obj[key] = v] for an object [v].  An own property is updated in place
    and a new key is added last; the key [__proto__], when it is not an
    own property, reaches the accessor of [Object.prototype], which
    replaces the prototype and leaves the own properties as they are.
    Two things are not modelled.  An array receiver: JavaScript assigns to
    it, the model reports a TypeError.  The place of an array-index key
    such as 7: JavaScript enumerates these keys first, in numeric order,
    the model adds them last; an identifier that passes
    [validateRepoFormat] has a slash and is never one. *)
Definition set (obj : JSON.value) (key : string) (v : JSON.value)
  : result JSON.value :=
  match obj with
  | JSON.Object props =>
      match own key props with
      | None =>
          if String.eqb key "__proto__" then Ok (JSON.Object props)
          else Ok (JSON.Object (JSON.define key v props))
      | Some _ => Ok (JSON.Object (JSON.define key v props))
      end
  | _ => Throw type_error
  end.

Definition truthy_json (v : JSON.value) : bool :=
  match v with
  | JSON.Null => false
  | JSON.Bool b => b
  | JSON.Number n => negb (n =? 0)%Z
  | JSON.Str s => JS.truthy_string s
  | JSON.Array _ => true
  | JSON.Object _ => true
  end.

Definition truthy (x : jsval) : bool :=
  match x with
  | Undefined => false
  | Builtin _ => true
  | Json v => truthy_json v
  end.

(** [x || null]. *)
Definition or_null (x : jsval) : jsval :=
  if truthy x then x else Json JSON.Null.

(** [x.key] on a truthy value, for a key that neither [Object.prototype]
    nor the prototypes of strings, numbers, booleans, arrays and functions
    define: the own property of a plain object, [undefined] otherwise. *)
Definition member (x : jsval) (key : string) : jsval :=
  match x with
  | Json (JSON.Object props) =>
      match own key props with
      | Some v => Json v
      | None => Undefined
      end
  | _ => Undefined
  end.

End JSObject.

(** ** types.ts *)

Record GitHubIssue : Type := {
  id : Z;
  title : string;
  body : option string;
  html_url : string;
  created_at : string
}.

(** The object literal of an issue, as a JSON value; an absent body is
    [null]. *)
Definition GitHubIssue_value (issue : GitHubIssue) : JSON.value :=
  JSON.Object
    [ ("id", JSON.Number (id issue));
      ("title", JSON.Str (title issue));
      ("body", match body issue with
               | Some b => JSON.Str b
               | None => JSON.Null
               end);
      ("html_url", JSON.Str (html_url issue));
      ("created_at", JSON.Str (created_at issue)) ].

Record CachedRepo : Type := {
  issues : list GitHubIssue;
  last_updated : string
}.

Definition CachedRepo_value (entry : CachedRepo) : JSON.value :=
  JSON.Object
    [ ("issues", JSON.Array (map GitHubIssue_value (issues entry)));
      ("last_updated", JSON.Str (last_updated entry)) ].

(** A [Cache] is an object from repository identifiers to entries. *)
Definition Cache : Type := list (string * CachedRepo).

Definition Cache_value (cache : Cache) : JSON.value :=
  JSON.Object (map (fun kv => (fst kv, CachedRepo_value (snd kv))) cache).

(** Reading a JSON value back at its declared type.  The TypeScript code
    does no such check: these views say which values the typed code paths
    are modelled on. *)
Definition as_string (v : option JSON.value) : option string :=
  match v with
  | Some (JSON.Str s) => Some s
  | _ => None
  end.

Definition as_issue (v : JSON.value) : option GitHubIssue :=
  match v with
  | JSON.Object props =>
      match JSObject.own "id" props, as_string (JSObject.own "title" props),
            JSObject.own "body" props,
            as_string (JSObject.own "html_url" props),
            as_string (JSObject.own "created_at" props) with
      | Some (JSON.Number n), Some t, Some b, Some u, Some c =>
          match b with
          | JSON.Str text =>
              Some {| id := n; title := t; body := Some text;
                      html_url := u; created_at := c |}
          | JSON.Null =>
              Some {| id := n; title := t; body := None;
                      html_url := u; created_at := c |}
          | _ => None
          end
      | _, _, _, _, _ => None
      end
  | _ => None
  end.

Fixpoint as_issues (vs : list JSON.value) : option (list GitHubIssue) :=
  match vs with
  | [] => Some []
  | v :: rest =>
      match as_issue v, as_issues rest with
      | Some issue, Some more => Some (issue :: more)
      | _, _ => None
      end
  end.

(** ** github.ts *)

Module GitHubService.

Definition GITHUB_API_BASE : string := "https://api.github.com".

(** The query parameters and the request of one page. *)
Record Params : Type := {
  state : string;
  page : nat;
  per_page : nat
}.

Record Request : Type := {
  url : string;
  params : Params
}.

(** An element of the listing the host answers with.  [pull_request] says
    whether the element has a key of that name; [item_body] is [None] for
    a body that is [null] or missing. *)
Record Item : Type := {
  item_id : Z;
  item_title : string;
  item_body : option string;
  item_html_url : string;
  item_created_at : string;
  pull_request : bool
}.

(** What [axios.get] throws: an Axios error, with the status and the
    [data.message] of the response when there is one, or another error. *)
Inductive Failure : Type :=
| AxiosError (response : option (Z * option string)) (message : string)
| OtherError (message : string).

Definition Host : Type := Request -> Failure + list Item.

(** [x || fallback] on strings that may be absent. *)
Definition or_else (x : option string) (fallback : string) : string :=
  match x with
  | Some s => if JS.truthy_string s then s else fallback
  | None => fallback
  end.

(** The handler of the [catch] block. *)
Definition rethrow (error : Failure) : string :=
  match error with
  | AxiosError response message =>
      let status :=
        match response with
        | Some (code, _) => JS.number_to_string code
        | None => "undefined"
        end in
      let message :=
        or_else match response with
                | Some (_, data_message) => data_message
                | None => None
                end message in
      "GitHub API error: " ++ status ++ " - " ++ message
  | OtherError message => message
  end.

Definition to_issue (item : Item) : GitHubIssue :=
  {| id := item_id item;
     title := item_title item;
     body := Some (or_else (item_body item) "");
     html_url := item_html_url item;
     created_at := item_created_at item |}.

(** The [for] loop over one page: pull requests are skipped, the other
    elements are pushed onto [issues]. *)
Fixpoint push_page (data : list Item) (issues : list GitHubIssue)
  : list GitHubIssue :=
  match data with
  | [] => issues
  | item :: rest =>
      if pull_request item then push_page rest issues
      else push_page rest (issues ++ [to_issue item])%list
  end.

Definition request_page (repo : string) (page : nat) (perPage : nat)
  : Request :=
  {| url := GITHUB_API_BASE ++ "/repos/" ++ repo ++ "/issues";
     params := {| state := "open"; page := page; per_page := perPage |} |}.

(** The [while (true)] loop.  [fuel] bounds the number of iterations and
    [None] says that it ran out; [sent] records the requests made. *)
Fixpoint fetch_loop (fuel : nat) (host : Host) (repo : string)
         (page perPage : nat) (issues : list GitHubIssue)
         (sent : list Request)
  : option (result (list GitHubIssue) * list Request) :=
  match fuel with
  | O => None
  | S fuel =>
      let request := request_page repo page perPage in
      let sent := (sent ++ [request])%list in
      match host request with
      | inl error => Some (Throw (rethrow error), sent)
      | inr data =>
          if (List.length data =? 0)%nat then Some (Ok issues, sent)
          else fetch_loop fuel host repo (page + 1) perPage
                          (push_page data issues) sent
      end
  end.

Definition fetchAllIssues (fuel : nat) (host : Host) (repo : string)
  : option (result (list GitHubIssue) * list Request) :=
  let issues := [] in
  let page := 1 in
  let perPage := 100 in
  fetch_loop fuel host repo page perPage issues [].

Definition validateRepoFormat (repo : string) : bool :=
  JS.includes repo "/" && (List.length (JS.split repo "/") =? 2)%nat.

End GitHubService.

(** ** The cache file *)

Module Fs.

Inductive file : Type :=
| Missing
| Unreadable
| Contents (data : string).

(** The file at [CACHE_FILE] and whether writing to it succeeds. *)
Record state : Type := {
  cache_file : file;
  writable : bool
}.

Definition existsSync (fs : state) : bool :=
  match cache_file fs with
  | Missing => false
  | _ => true
  end.

Definition readFileSync (fs : state) : result string :=
  match cache_file fs with
  | Contents data => Ok data
  | Unreadable => Throw "EACCES: permission denied"
  | Missing => Throw "ENOENT: no such file or directory"
  end.

(** A write that succeeds replaces the whole contents; a write that fails
    leaves the file as it was.  After a write that succeeds the file can be
    read: a file that takes writes and refuses reads is not modelled. *)
Definition writeFileSync (data : string) (fs : state)
  : result unit * state :=
  if writable fs
  then (Ok tt, {| cache_file := Contents data; writable := true |})
  else (Throw "EACCES: permission denied", fs).

End Fs.

(** ** cache.ts *)

Module CacheService.

(** [JSON.parse], which throws a SyntaxError on a malformed text. *)
Definition JSON_parse (data : string) : result JSON.value :=
  match JSON.parse data with
  | Some v => Ok v
  | None => Throw "SyntaxError"
  end.

Definition loadCache (fs : Fs.state) : result JSON.value :=
  try_catch
    (if Fs.existsSync fs then
       data <- Fs.readFileSync fs ;;
       JSON_parse data
     else Ok (JSON.Object []))
    (fun error => Ok (JSON.Object [])).

Definition saveCache (cache : JSON.value) (fs : Fs.state)
  : result unit * Fs.state :=
  match Fs.writeFileSync (JSON.stringify cache) fs with
  | (Ok tt, fs') => (Ok tt, fs')
  | (Throw error, fs') => (Throw "Failed to save cache to file", fs')
  end.

(** [now] is the value of [new Date().toISOString()]. *)
Definition storeIssues (repo : string) (issues : list GitHubIssue)
           (now : string) (fs : Fs.state) : result unit * Fs.state :=
  match loadCache fs with
  | Throw error => (Throw error, fs)
  | Ok cache =>
      let entry :=
        CachedRepo_value {| issues := issues; last_updated := now |} in
      match JSObject.set cache repo entry with
      | Throw error => (Throw error, fs)
      | Ok cache => saveCache cache fs
      end
  end.

Definition getIssues (repo : string) (fs : Fs.state)
  : result JSObject.jsval :=
  cache <- loadCache fs ;;
  found <- JSObject.get cache repo ;;
  Ok (JSObject.or_null found).

Definition hasRepo (repo : string) (fs : Fs.state) : result bool :=
  cache <- loadCache fs ;;
  JSObject.has_property repo cache.

End CacheService.

(** ** llm.ts *)

Module LLMService.

Inductive LLMProvider : Type := anthropic | openai.

Record Env : Type := {
  ANTHROPIC_API_KEY : option string;
  OPENAI_API_KEY : option string
}.

(** A client holds the key it was built with. *)
Record service : Type := {
  anthropicClient : option string;
  openaiClient : option string;
  provider : LLMProvider
}.

Definition truthy_key (key : option string) : bool :=
  match key with
  | Some k => JS.truthy_string k
  | None => false
  end.

Definition key_of (key : option string) : string :=
  match key with
  | Some k => k
  | None => ""
  end.

Definition constructor (env : Env) : result service :=
  let anthropicKey := ANTHROPIC_API_KEY env in
  let openaiKey := OPENAI_API_KEY env in
  if truthy_key anthropicKey then
    Ok {| provider := anthropic;
          anthropicClient := Some (key_of anthropicKey);
          openaiClient := None |}
  else if truthy_key openaiKey then
    Ok {| provider := openai;
          anthropicClient := None;
          openaiClient := Some (key_of openaiKey) |}
  else
    Throw "Either ANTHROPIC_API_KEY or OPENAI_API_KEY environment variable must be set".

(** The request both providers receive: model, bound on the output, the
    system text and the user text. *)
Record Completion : Type := {
  model : string;
  max_tokens : nat;
  system : string;
  user : string
}.

Inductive ContentBlock : Type :=
| TextBlock (text : string)
| OtherBlock (type : string).

(** The two hosted services.  Anthropic answers with the content blocks
    of the message; OpenAI with [choices[0]?.message?.content], absent
    when any link of the chain is. *)
Record Providers : Type := {
  anthropic_messages_create :
    string -> Completion -> result (list ContentBlock);
  openai_chat_completions_create :
    string -> Completion -> result (option string)
}.

(** A call made to a provider. *)
Inductive Call : Type :=
| AnthropicCall (apiKey : string) (request : Completion)
| OpenAICall (apiKey : string) (request : Completion).

Definition nl : string := String JSON.newline "".

(** [message.content.find((block) => block.type === "text")]. *)
Fixpoint find_text (content : list ContentBlock) : option string :=
  match content with
  | [] => None
  | TextBlock text :: _ => Some text
  | OtherBlock _ :: rest => find_text rest
  end.

Definition analyzeWithAnthropic (self : service) (api : Providers)
           (systemPrompt userPrompt : string)
  : result string * list Call :=
  match anthropicClient self with
  | None => (Throw "Anthropic client not initialized", [])
  | Some key =>
      let request :=
        {| model := "claude-sonnet-4-20250514"; max_tokens := 4000;
           system := systemPrompt; user := userPrompt |} in
      (message <- anthropic_messages_create api key request ;;
       match find_text message with
       | None => Throw "No text content in LLM response"
       | Some text => Ok text
       end,
       [AnthropicCall key request])
  end.

Definition analyzeWithOpenAI (self : service) (api : Providers)
           (systemPrompt userPrompt : string)
  : result string * list Call :=
  match openaiClient self with
  | None => (Throw "OpenAI client not initialized", [])
  | Some key =>
      let request :=
        {| model := "gpt-4o"; max_tokens := 4000;
           system := systemPrompt; user := userPrompt |} in
      (response <- openai_chat_completions_create api key request ;;
       match response with
       | Some text =>
           if JS.truthy_string text then Ok text
           else Throw "No content in OpenAI response"
       | None => Throw "No content in OpenAI response"
       end,
       [OpenAICall key request])
  end.

(** The body shown for an issue: its first 500 code units, or the
    placeholder when it is absent or empty. *)
Definition shown_body (issue : GitHubIssue) : string :=
  match body issue with
  | Some b =>
      if JS.truthy_string b then JS.substring b 0 500
      else "No description"
  | None => "No description"
  end.

Definition issue_block (issue : GitHubIssue) : string :=
  let body := shown_body issue in
  nl ++ "Issue ID: " ++ JS.number_to_string (id issue)
  ++ nl ++ "Title: " ++ title issue
  ++ nl ++ "Body: " ++ body
  ++ nl ++ "URL: " ++ html_url issue
  ++ nl ++ "Created: " ++ created_at issue
  ++ nl ++ "---".

Definition issuesText (issues : list GitHubIssue) : string :=
  JS.join (map issue_block issues) nl.

Definition systemPrompt : string :=
  "You are an expert software project analyst. You analyze GitHub issues to identify "
  ++ "patterns, themes, and priorities. Provide clear, actionable insights based on the issues provided.".

Definition fullPrompt (repo : string) (issues : list GitHubIssue)
           (userPrompt : string) : string :=
  "Analyze the following GitHub issues from the repository '" ++ repo ++ "'."
  ++ nl ++ nl ++ userPrompt
  ++ nl ++ nl ++ "Here are the issues:"
  ++ nl ++ nl ++ issuesText issues
  ++ nl ++ nl
  ++ "Please provide a comprehensive analysis based on the request above.".

Definition analyzeIssues (self : service) (api : Providers)
           (repo : string) (issues : list GitHubIssue) (userPrompt : string)
  : result string * list Call :=
  let (outcome, calls) :=
    match provider self with
    | anthropic =>
        analyzeWithAnthropic self api systemPrompt
                             (fullPrompt repo issues userPrompt)
    | openai =>
        analyzeWithOpenAI self api systemPrompt
                          (fullPrompt repo issues userPrompt)
    end in
  (try_catch outcome (fun message => Throw ("LLM API error: " ++ message)),
   calls).

(** [getProvider()]. *)
Definition getProvider (self : service) : LLMProvider := provider self.

End LLMService.

(** ** llm.ts, the version before OpenAI support

    The service with the Anthropic client only.  Its prompt assembly is,
    character for character, the one of [LLMService]. *)

Module AnthropicLLMService.

Record service : Type := {
  client : string
}.

Definition constructor (env : LLMService.Env) : result service :=
  let apiKey := LLMService.ANTHROPIC_API_KEY env in
  if negb (LLMService.truthy_key apiKey) then
    Throw "ANTHROPIC_API_KEY environment variable is not set"
  else Ok {| client := LLMService.key_of apiKey |}.

Definition analyzeIssues (self : service) (api : LLMService.Providers)
           (repo : string) (issues : list GitHubIssue) (userPrompt : string)
  : result string * list LLMService.Call :=
  let systemPrompt := LLMService.systemPrompt in
  let fullPrompt := LLMService.fullPrompt repo issues userPrompt in
  let request :=
    {| LLMService.model := "claude-sonnet-4-20250514";
       LLMService.max_tokens := 4000;
       LLMService.system := systemPrompt;
       LLMService.user := fullPrompt |} in
  (try_catch
     (message <- LLMService.anthropic_messages_create api (client self)
                                                      request ;;
      match LLMService.find_text message with
      | None => Throw "No text content in LLM response"
      | Some text => Ok text
      end)
     (fun message => Throw ("LLM API error: " ++ message)),
   [LLMService.AnthropicCall (client self) request]).

End AnthropicLLMService.

(** ** index.ts *)

Module Server.

Inductive Body : Type :=
| ScanResponse (repo : string) (issues_fetched : nat)
               (cached_successfully : bool)
| AnalyzeResponse (analysis : string)
| ErrorResponse (error : string) (cached_successfully : option bool).

Record Response : Type := {
  status : nat;
  json : Body
}.

(** The body of a scan request at its declared type: [repo] is a string,
    or is missing.  [scan_body] below takes the body as it arrives. *)
Record ScanRequest : Type := { scan_repo : option string }.

Record AnalyzeRequest : Type := {
  analyze_repo : option string;
  analyze_prompt : option string
}.

(** [!field] on a field of the request body. *)
Definition missing (field : option string) : bool :=
  negb (LLMService.truthy_key field).

Definition no_issues_sentence : string :=
  "No issues found in the cache for this repository. The repository may not have any open issues.".

(** [issues.length === 0] on a truthy value. *)
Definition length_is_zero (x : JSObject.jsval) : bool :=
  match x with
  | JSObject.Json (JSON.Array []) => true
  | JSObject.Json (JSON.Object props) =>
      match JSObject.own "length" props with
      | Some (JSON.Number 0) => true
      | _ => false
      end
  | _ => false
  end.

(** The cached issues at their declared type [GitHubIssue[]]. *)
Definition typed_issues (x : JSObject.jsval) : option (list GitHubIssue) :=
  match x with
  | JSObject.Json (JSON.Array vs) => as_issues vs
  | _ => None
  end.

(** POST /scan.  [None] when the fetch loop runs out of fuel. *)
Definition scan (fuel : nat) (host : GitHubService.Host) (now : string)
           (request : ScanRequest) (fs : Fs.state)
  : option (Response * Fs.state * list GitHubService.Request) :=
  if missing (scan_repo request) then
    Some ({| status := 400;
             json := ErrorResponse "Missing 'repo' field in request body"
                                   None |}, fs, [])
  else
    let repo := LLMService.key_of (scan_repo request) in
    if negb (GitHubService.validateRepoFormat repo) then
      Some ({| status := 400;
               json := ErrorResponse
                         "Invalid repo format. Expected 'owner/repository-name'"
                         None |}, fs, [])
    else
      match GitHubService.fetchAllIssues fuel host repo with
      | None => None
      | Some (Throw message, sent) =>
          Some ({| status := 500;
                   json := ErrorResponse message (Some false) |}, fs, sent)
      | Some (Ok issues, sent) =>
          match CacheService.storeIssues repo issues now fs with
          | (Throw message, fs') =>
              Some ({| status := 500;
                       json := ErrorResponse message (Some false) |},
                    fs', sent)
          | (Ok _, fs') =>
              Some ({| status := 200;
                       json := ScanResponse repo (List.length issues) true |},
                    fs', sent)
          end
      end.

Definition failed (message : string) : Response :=
  {| status := 500; json := ErrorResponse message None |}.

(** POST /analyze.  [None] when the cached issues are not of the declared
    type [GitHubIssue[]]: the typed code has no reading of them. *)
Definition analyze (llmService : LLMService.service)
           (api : LLMService.Providers) (request : AnalyzeRequest)
           (fs : Fs.state)
  : option (Response * list LLMService.Call) :=
  if missing (analyze_repo request) || missing (analyze_prompt request) then
    Some ({| status := 400;
             json := ErrorResponse
                       "Missing 'repo' or 'prompt' field in request body"
                       None |}, [])
  else
    let repo := LLMService.key_of (analyze_repo request) in
    let prompt := LLMService.key_of (analyze_prompt request) in
    match CacheService.hasRepo repo fs with
    | Throw message => Some (failed message, [])
    | Ok false =>
        Some ({| status := 404;
                 json := ErrorResponse
                           ("Repository '" ++ repo
                            ++ "' not yet scanned. Please call /scan first.")
                           None |}, [])
    | Ok true =>
        match CacheService.getIssues repo fs with
        | Throw message => Some (failed message, [])
        | Ok cachedData =>
            if negb (JSObject.truthy cachedData) then
              Some (failed ("Failed to retrieve cached data for repository '"
                            ++ repo ++ "'"), [])
            else
              let issues := JSObject.member cachedData "issues" in
              if negb (JSObject.truthy issues) || length_is_zero issues then
                Some ({| status := 200;
                         json := AnalyzeResponse no_issues_sentence |}, [])
              else
                match typed_issues issues with
                | None => None
                | Some issues =>
                    match LLMService.analyzeIssues llmService api repo
                                                   issues prompt with
                    | (Ok analysis, calls) =>
                        Some ({| status := 200;
                                 json := AnalyzeResponse analysis |}, calls)
                    | (Throw message, calls) =>
                        Some (failed message, calls)
                    end
                end
        end
    end.

(** [x === "/"], the test of [Array.prototype.includes] on one element. *)
Definition is_slash (v : JSON.value) : bool :=
  match v with
  | JSON.Str s => String.eqb s "/"
  | _ => false
  end.

(** [GitHubService.validateRepoFormat(repo)] on the truthy value the body
    holds, which need not be a string: an array has [includes] and no
    [split]; a number, a boolean and an object have neither. *)
Definition validate_untyped (repo : JSON.value) : result bool :=
  match repo with
  | JSON.Str s => Ok (GitHubService.validateRepoFormat s)
  | JSON.Array elements =>
      if existsb is_slash elements
      then Throw "repo.split is not a function"
      else Ok false
  | _ => Throw "repo.includes is not a function"
  end.

(** POST /scan on the body as [express.json()] hands it over: an object
    with the properties [body], whose [repo] is any JSON value or is
    missing.  A string goes the way of [scan]; another value is either
    falsy, or fails the format check, or makes the check throw, which the
    [catch] of the handler answers; the check passes for strings only.  A
    body that is an array, and a request without a body, are not
    modelled. *)
Definition scan_body (fuel : nat) (host : GitHubService.Host) (now : string)
           (body : list (string * JSON.value)) (fs : Fs.state)
  : option (Response * Fs.state * list GitHubService.Request) :=
  match JSObject.own "repo" body with
  | None => scan fuel host now {| scan_repo := None |} fs
  | Some (JSON.Str repo) => scan fuel host now {| scan_repo := Some repo |} fs
  | Some repo =>
      if negb (JSObject.truthy_json repo) then
        Some ({| status := 400;
                 json := ErrorResponse "Missing 'repo' field in request body"
                                       None |}, fs, [])
      else
        match validate_untyped repo with
        | Throw message =>
            Some ({| status := 500;
                     json := ErrorResponse message (Some false) |}, fs, [])
        | Ok false =>
            Some ({| status := 400;
                     json := ErrorResponse
                               "Invalid repo format. Expected 'owner/repository-name'"
                               None |}, fs, [])
        | Ok true => None
        end
  end.

End Server.

(** * Specification-side definitions *)

(** The shape the format check is documented with: an owner and a name,
    both non-empty and free of slashes, around one slash. *)
Definition owner_name_shape (s : string) : Prop :=
  exists owner name,
    s = owner ++ String "/" name
    /\ owner <> "" /\ name <> ""
    /\ JS.includes owner "/" = false /\ JS.includes name "/" = false.

(** The host answers the pages [page], [page + 1], ... of the open issues
    of [repo] with the non-empty lists [pages], in this order, and the page
    after them with the empty list. *)
Fixpoint serves (host : GitHubService.Host) (repo : string) (page : nat)
         (pages : list (list GitHubService.Item)) : Prop :=
  match pages with
  | [] => host (GitHubService.request_page repo page 100) = inr []
  | data :: rest =>
      host (GitHubService.request_page repo page 100) = inr data
      /\ data <> []
      /\ serves host repo (page + 1) rest
  end.

(** The issues of a page: its elements that are not pull requests. *)
Definition kept (data : list GitHubService.Item) : list GitHubIssue :=
  map GitHubService.to_issue
      (filter (fun item => negb (GitHubService.pull_request item)) data).

(** A host with three pages; the second holds pull requests only. *)
Definition demo_item (n : Z) (text : option string) (pr : bool)
  : GitHubService.Item :=
  {| GitHubService.item_id := n;
     GitHubService.item_title := "t";
     GitHubService.item_body := text;
     GitHubService.item_html_url := "u";
     GitHubService.item_created_at := "c";
     GitHubService.pull_request := pr |}.

Definition demo_pages : list (list GitHubService.Item) :=
  [ [demo_item 1 (Some "first") false; demo_item 2 None true;
     demo_item 3 None false];
    [demo_item 4 (Some "pr") true];
    [demo_item 5 (Some "") false] ].

Definition demo_host : GitHubService.Host :=
  fun request =>
    match GitHubService.page (GitHubService.params request) with
    | 0 => inl (GitHubService.OtherError "no such page")
    | S n => inr (nth n demo_pages [])
    end.

(** The text does not go on with a digit. *)
Definition no_digit (rest : string) : Prop :=
  match rest with
  | EmptyString => True
  | String c _ => JSON.digit_of c = None
  end.

(** The characters a JSON value can start with. *)
Definition starts_value (c : ascii) : bool :=
  match JSON.digit_of c with
  | Some _ => true
  | None =>
      Ascii.eqb c "-" || Ascii.eqb c "n" || Ascii.eqb c "t" || Ascii.eqb c "f"
      || Ascii.eqb c JSON.quote || Ascii.eqb c "[" || Ascii.eqb c "{"
  end.

(** The text of the elements of an array and of the properties of an
    object, between the brackets, at indentation [indent]. *)
Definition elements_text (indent : nat) (elements : list JSON.value) : string :=
  JS.join (map (JSON.serialize indent) elements)
          ("," ++ JSON.line_break indent).

Definition property_text (indent : nat) (p : string * JSON.value) : string :=
  JSON.quote_string (fst p) ++ ": " ++ JSON.serialize indent (snd p).

Definition properties_text (indent : nat)
           (properties : list (string * JSON.value)) : string :=
  JS.join (map (property_text indent) properties)
          ("," ++ JSON.line_break indent).

(** [parse_value] reads back the serialisation of [v], whatever follows. *)
Definition reads_back (v : JSON.value) : Prop :=
  forall indent fuel rest,
    String.length (JSON.serialize indent v) < fuel ->
    no_digit rest ->
    JSON.parse_value fuel (JSON.serialize indent v ++ rest) = Some (v, rest).

(** The states of the cache file the program can bring about: it starts
    with no file; issues are stored, the write succeeding or not; writing
    becomes possible or impossible. *)
Inductive reachable : Fs.state -> Prop :=
| reachable_start (w : bool) :
    reachable {| Fs.cache_file := Fs.Missing; Fs.writable := w |}
| reachable_store (repo : string) (l : list GitHubIssue) (now : string)
                  (fs : Fs.state) :
    reachable fs ->
    reachable (snd (CacheService.storeIssues repo l now fs))
| reachable_permission (w : bool) (fs : Fs.state) :
    reachable fs ->
    reachable {| Fs.cache_file := Fs.cache_file fs; Fs.writable := w |}.



(** Sample data. *)
Definition demo_issue (n : Z) (text : option string) : GitHubIssue :=
  {| id := n; title := "t"; body := text; html_url := "u";
     created_at := "c" |}.

Definition empty_disk : Fs.state :=
  {| Fs.cache_file := Fs.Missing; Fs.writable := true |}.

Definition demo_disk : Fs.state :=
  snd (CacheService.storeIssues "octo/demo"
         [demo_issue 1 (Some "first"); demo_issue 2 None] "2024-01-01" empty_disk).

Definition demo_llm : LLMService.service :=
  {| LLMService.anthropicClient := Some "key";
     LLMService.openaiClient := None;
     LLMService.provider := LLMService.anthropic |}.

Definition demo_api : LLMService.Providers :=
  {| LLMService.anthropic_messages_create :=
       fun _ _ => Ok [LLMService.TextBlock "analysis"];
     LLMService.openai_chat_completions_create :=
       fun _ _ => Ok (Some "analysis") |}.

(** ** Definitions for the further properties *)

(** The host answers the pages [page], [page + 1], ... with the non-empty
    lists [pages] and fails with [error] on the page after them. *)
Fixpoint fails_after (host : GitHubService.Host) (repo : string) (page : nat)
         (pages : list (list GitHubService.Item))
         (error : GitHubService.Failure) : Prop :=
  match pages with
  | [] => host (GitHubService.request_page repo page 100) = inl error
  | data :: rest =>
      host (GitHubService.request_page repo page 100) = inr data
      /\ data <> []
      /\ fails_after host repo (page + 1) rest error
  end.

(** A host that answers one page and then refuses with a status 403. *)
Definition limited_host : GitHubService.Host :=
  fun request =>
    match GitHubService.page (GitHubService.params request) with
    | 1 => inr [demo_item 1 (Some "first") false]
    | _ => inl (GitHubService.AxiosError (Some (403%Z, Some "rate limit"))
                                         "Request failed")
    end.

(** A host whose every page holds one pull request. *)
Definition endless_host : GitHubService.Host :=
  fun _ => inr [demo_item 1 None true].

(** The own properties of the cache after [cache[repo] = entry]. *)
Definition assigned (repo : string) (entry : JSON.value)
           (props : list (string * JSON.value)) : list (string * JSON.value) :=
  match JSObject.own repo props with
  | None => if String.eqb repo "__proto__" then props
            else JSON.define repo entry props
  | Some _ => JSON.define repo entry props
  end.

(** The file after a write of [cache] that succeeds. *)
Definition written (cache : JSON.value) : Fs.state :=
  {| Fs.cache_file := Fs.Contents (JSON.stringify cache);
     Fs.writable := true |}.

(** What /analyze answers once it has the cached issues [l] of [repo]: the
    fixed sentence for an empty list, the outcome of [analyzeIssues]
    otherwise. *)
Definition analysis_of (llmService : LLMService.service)
           (api : LLMService.Providers) (repo : string)
           (l : list GitHubIssue) (prompt : string)
  : Server.Response * list LLMService.Call :=
  match l with
  | [] =>
      ({| Server.status := 200;
          Server.json := Server.AnalyzeResponse Server.no_issues_sentence |},
       [])
  | _ :: _ =>
      match LLMService.analyzeIssues llmService api repo l prompt with
      | (Ok analysis, calls) =>
          ({| Server.status := 200;
              Server.json := Server.AnalyzeResponse analysis |}, calls)
      | (Throw message, calls) =>
          ({| Server.status := 500;
              Server.json := Server.ErrorResponse message None |}, calls)
      end
  end.

(** The requests the two providers receive. *)
Definition claude_request (repo : string) (l : list GitHubIssue)
           (prompt : string) : LLMService.Completion :=
  {| LLMService.model := "claude-sonnet-4-20250514";
     LLMService.max_tokens := 4000;
     LLMService.system := LLMService.systemPrompt;
     LLMService.user := LLMService.fullPrompt repo l prompt |}.

Definition gpt_request (repo : string) (l : list GitHubIssue)
           (prompt : string) : LLMService.Completion :=
  {| LLMService.model := "gpt-4o";
     LLMService.max_tokens := 4000;
     LLMService.system := LLMService.systemPrompt;
     LLMService.user := LLMService.fullPrompt repo l prompt |}.

(** Sample services and providers. *)
Definition demo_openai : LLMService.service :=
  {| LLMService.anthropicClient := None;
     LLMService.openaiClient := Some "key";
     LLMService.provider := LLMService.openai |}.

Definition failing_api : LLMService.Providers :=
  {| LLMService.anthropic_messages_create := fun _ _ => Throw "401 invalid key";
     LLMService.openai_chat_completions_create := fun _ _ => Ok (Some "") |}.

(** [cache[repo] = entry] on a typed cache. *)
Fixpoint Cache_define (repo : string) (entry : CachedRepo) (cache : Cache)
  : Cache :=
  match cache with
  | [] => [(repo, entry)]
  | (k, e) :: rest =>
      if String.eqb k repo then (k, entry) :: rest
      else (k, e) :: Cache_define repo entry rest
  end.

(** The values of [body.repo] on which the format check of /scan throws:
    the truthy values that are no strings, but for the arrays that do not
    hold the string of one slash. *)
Definition validation_throws (repo : option JSON.value) : bool :=
  match repo with
  | Some (JSON.Bool b) => b
  | Some (JSON.Number n) => negb (n =? 0)%Z
  | Some (JSON.Object _) => true
  | Some (JSON.Array elements) => existsb Server.is_slash elements
  | _ => false
  end.


(** The issue made of an element of the listing: its number, title, link
    and creation time, and its body, the empty string when it has none. *)
Definition projected (item : GitHubService.Item) : GitHubIssue :=
  {| id := GitHubService.item_id item;
     title := GitHubService.item_title item;
     body := Some match GitHubService.item_body item with
                  | Some text => text
                  | None => ""
                  end;
     html_url := GitHubService.item_html_url item;
     created_at := GitHubService.item_created_at item |}.

(** * Properties *)

(** ** Strings *)

Lemma append_assoc (a b c : string) : (a ++ b) ++ c = a ++ (b ++ c).
Proof.
  induction a as [|x a IH]; simpl; [reflexivity|].
  now rewrite IH.
Qed.

Lemma append_nil_r (a : string) : a ++ "" = a.
Proof.
  induction a as [|x a IH]; simpl; [reflexivity|].
  now rewrite IH.
Qed.

Lemma length_append (a b : string) :
  String.length (a ++ b) = String.length a + String.length b.
Proof.
  induction a as [|x a IH]; simpl; [reflexivity|].
  now rewrite IH.
Qed.

(** ** The repository-format check *)

Lemma split_length (s : string) (c : ascii) :
  List.length (JS.split s c) = S (JS.count c s).
Proof.
  induction s as [|a s IH]; simpl; [reflexivity|].
  destruct (Ascii.eqb a c); simpl.
  - now rewrite IH.
  - destruct (JS.split s c) as [|seg segs]; simpl in *; lia.
Qed.

Lemma includes_count (s : string) (c : ascii) :
  JS.includes s c = negb (JS.count c s =? 0)%nat.
Proof.
  induction s as [|a s IH]; simpl; [reflexivity|].
  destruct (Ascii.eqb a c); simpl; [reflexivity|exact IH].
Qed.

Lemma count_append (c : ascii) (a b : string) :
  JS.count c (a ++ b) = JS.count c a + JS.count c b.
Proof.
  induction a as [|x a IH]; simpl; [reflexivity|].
  rewrite IH; lia.
Qed.

Lemma count_one_split (c : ascii) (s : string) :
  JS.count c s = 1 ->
  exists a b, s = a ++ String c b /\ JS.count c a = 0 /\ JS.count c b = 0.
Proof.
  induction s as [|x s IH]; simpl; [discriminate|].
  destruct (Ascii.eqb_spec x c) as [->|Hne]; simpl; intros H.
  - exists "", s. repeat split. lia.
  - destruct (IH H) as (a & b & -> & Ha & Hb).
    exists (String x a), b. simpl.
    destruct (Ascii.eqb_spec x c); [contradiction|]. auto.
Qed.

Lemma validateRepoFormat_count (repo : string) :
  GitHubService.validateRepoFormat repo = true <-> JS.count "/" repo = 1.
Proof.
  unfold GitHubService.validateRepoFormat.
  rewrite includes_count, split_length, andb_true_iff, negb_true_iff.
  rewrite Nat.eqb_neq, Nat.eqb_eq. lia.
Qed.

(** C1, as the code has it: the format check accepts exactly the strings
    with exactly one slash, that is the strings [owner ++ "/" ++ name] with
    no slash in [owner] and none in [name]; either segment may be empty.
    The empty string, a string without a slash and a string with two slashes
    or more are rejected. *)
Theorem validateRepoFormat_one_slash (repo : string) :
  GitHubService.validateRepoFormat repo = true <->
  exists owner name,
    repo = owner ++ String "/" name
    /\ JS.includes owner "/" = false /\ JS.includes name "/" = false.
Proof.
  rewrite validateRepoFormat_count. split.
  - intros H. destruct (count_one_split _ _ H) as (a & b & -> & Ha & Hb).
    exists a, b. rewrite !includes_count, Ha, Hb. auto.
  - intros (a & b & -> & Ha & Hb).
    rewrite includes_count, negb_false_iff, Nat.eqb_eq in Ha, Hb.
    rewrite count_append. simpl. rewrite Ha, Hb. reflexivity.
Qed.

(** C1, the claim as stated fails: the check accepts [/b], whose owner
    segment is empty. *)
Lemma validateRepoFormat_accepts_empty_owner :
  GitHubService.validateRepoFormat "/b" = true /\ ~ owner_name_shape "/b".
Proof.
  split; [reflexivity|].
  intros (owner & name & E & Ho & _ & Hs & _).
  destruct owner as [|x owner]; [congruence|].
  simpl in E. injection E as <- E. simpl in Hs. discriminate.
Qed.

Example validateRepoFormat_examples :
  map GitHubService.validateRepoFormat ["octo/demo"; "abc"; ""; "a/b/c"; "/b"; "a/"; "/"]
  = [true; false; false; false; true; true; true].
Proof. reflexivity. Qed.
(** ** Prompt assembly *)

Lemma substring_from_start (n : nat) (s : string) :
  String.length (String.substring 0 n s) = Nat.min n (String.length s)
  /\ exists rest, s = String.substring 0 n s ++ rest.
Proof.
  revert s. induction n as [|n IH]; intros s.
  - destruct s; simpl; split; eauto.
  - destruct s as [|c s]; simpl.
    + split; [reflexivity|]. now exists "".
    + destruct (IH s) as (Hlen & rest & Hrest). split.
      * now rewrite Hlen.
      * exists rest. now rewrite <- Hrest.
Qed.

Lemma substring_whole (n : nat) (s : string) :
  String.length s <= n -> String.substring 0 n s = s.
Proof.
  revert s. induction n as [|n IH]; intros [|c s]; simpl; intros H;
    try reflexivity; try lia.
  rewrite IH; [reflexivity|lia].
Qed.

Lemma js_substring_from_start (s : string) (n : nat) :
  JS.substring s 0 n = String.substring 0 (Nat.min n (String.length s)) s.
Proof.
  unfold JS.substring. simpl. now rewrite Nat.sub_0_r.
Qed.

Lemma truthy_string_length (s : string) :
  JS.truthy_string s = true <-> 0 < String.length s.
Proof.
  destruct s; simpl; split; intros; try lia; try discriminate; reflexivity.
Qed.

Lemma join_cons (x : string) (parts : list string) (sep : string) :
  parts <> [] ->
  JS.join (x :: parts) sep = x ++ sep ++ JS.join parts sep.
Proof. destruct parts; [congruence|reflexivity]. Qed.

Lemma join_contains (parts : list string) (sep x : string) :
  In x parts -> exists before after, JS.join parts sep = before ++ x ++ after.
Proof.
  induction parts as [|y parts IH]; [contradiction|].
  destruct parts as [|z parts].
  - intros [->|[]]. exists "", "". simpl. now rewrite append_nil_r.
  - intros [->|Hin].
    + exists "", (sep ++ JS.join (z :: parts) sep). reflexivity.
    + destruct (IH Hin) as (before & after & E).
      exists (y ++ sep ++ before), after.
      rewrite join_cons by discriminate. rewrite E.
      now rewrite !append_assoc.
Qed.

Lemma inside_l (p s x : string) :
  (exists before after, s = before ++ x ++ after) ->
  exists before after, p ++ s = before ++ x ++ after.
Proof.
  intros (before & after & ->). exists (p ++ before), after.
  now rewrite append_assoc.
Qed.

Lemma inside_r (s q x : string) :
  (exists before after, s = before ++ x ++ after) ->
  exists before after, s ++ q = before ++ x ++ after.
Proof.
  intros (before & after & ->). exists before, (after ++ q).
  now rewrite !append_assoc.
Qed.

(** C3: in the prompt sent to the provider every issue has its block, and
    the body shown in the block is the placeholder text when the body is
    absent or empty, the body itself when it has at most 500 code units, and
    exactly its first 500 code units when it is longer; it is never empty. *)
Theorem prompt_body_truncated (issue : GitHubIssue) :
  let shown := LLMService.shown_body issue in
  (forall repo issues userPrompt,
      In issue issues ->
      exists before after,
        LLMService.fullPrompt repo issues userPrompt
        = before
          ++ (LLMService.nl ++ "Issue ID: " ++ JS.number_to_string (id issue)
              ++ LLMService.nl ++ "Title: " ++ title issue
              ++ LLMService.nl ++ "Body: " ++ shown
              ++ LLMService.nl ++ "URL: " ++ html_url issue
              ++ LLMService.nl ++ "Created: " ++ created_at issue
              ++ LLMService.nl ++ "---")
          ++ after)
  /\ shown <> ""
  /\ (body issue = None \/ body issue = Some "" -> shown = "No description")
  /\ (forall b, body issue = Some b ->
                0 < String.length b <= 500 -> shown = b)
  /\ (forall b, body issue = Some b ->
                500 < String.length b ->
                String.length shown = 500 /\ exists rest, b = shown ++ rest).
Proof.
  cbv zeta. unfold LLMService.shown_body. split; [|split; [|split; [|split]]].
  - intros repo issues userPrompt Hin.
    destruct (join_contains (map LLMService.issue_block issues)
                            LLMService.nl (LLMService.issue_block issue))
      as (before & after & E).
    { now apply in_map. }
    unfold LLMService.fullPrompt, LLMService.issuesText.
    do 11 apply inside_l. apply inside_r. eauto.
  - destruct (body issue) as [b|]; [|discriminate].
    destruct (JS.truthy_string b) eqn:T; [|discriminate].
    apply truthy_string_length in T.
    rewrite js_substring_from_start.
    destruct (substring_from_start (Nat.min 500 (String.length b)) b)
      as (Hlen & _).
    intros E. rewrite E in Hlen. change (String.length "") with 0 in Hlen.
    lia.
  - intros [->| ->]; reflexivity.
  - intros b -> Hb.
    destruct (JS.truthy_string b) eqn:T.
    + rewrite js_substring_from_start. apply substring_whole. lia.
    + assert (JS.truthy_string b = true) by (apply truthy_string_length; lia).
      congruence.
  - intros b -> Hb.
    assert (T : JS.truthy_string b = true) by (apply truthy_string_length; lia).
    rewrite T, js_substring_from_start.
    replace (Nat.min 500 (String.length b)) with 500 by lia.
    destruct (substring_from_start 500 b) as (Hlen & Hrest).
    split; [lia|exact Hrest].
Qed.
(** ** The fetcher *)

Lemma push_page_kept (data : list GitHubService.Item)
      (issues : list GitHubIssue) :
  GitHubService.push_page data issues = (issues ++ kept data)%list.
Proof.
  revert issues. unfold kept.
  induction data as [|item data IH]; intros issues; simpl.
  - now rewrite List.app_nil_r.
  - destruct (GitHubService.pull_request item); simpl.
    + apply IH.
    + rewrite IH, <- List.app_assoc. reflexivity.
Qed.

Lemma kept_flat_map (pages : list (list GitHubService.Item)) :
  flat_map kept pages = kept (List.concat pages).
Proof.
  unfold kept. induction pages as [|data pages IH]; simpl; [reflexivity|].
  now rewrite IH, filter_app, map_app.
Qed.

(** The loop from [page] on: one request per page, the last for the empty
    page, and the issues of the pages in order. *)
Lemma fetch_loop_serves (host : GitHubService.Host) (repo : string)
      (pages : list (list GitHubService.Item)) :
  forall fuel page issues sent,
    serves host repo page pages ->
    List.length pages < fuel ->
    GitHubService.fetch_loop fuel host repo page 100 issues sent
    = Some (Ok (issues ++ flat_map kept pages)%list,
            (sent ++ map (fun n => GitHubService.request_page repo n 100)
                         (seq page (S (List.length pages))))%list).
Proof.
  induction pages as [|data pages IH]; intros fuel page issues sent Hs Hf;
    (destruct fuel as [|fuel]; [simpl in Hf; lia|]); simpl in Hs |- *.
  - rewrite Hs. simpl. now rewrite List.app_nil_r.
  - destruct Hs as (Hd & Hne & Hs). rewrite Hd.
    destruct data as [|item data]; [congruence|].
    cbn [List.length Nat.eqb].
    rewrite (IH fuel (page + 1)) by (trivial; simpl in Hf; lia).
    rewrite push_page_kept, <- !List.app_assoc.
    replace (page + 1) with (S page) by lia. reflexivity.
Qed.

(** C6: the fetcher asks for the pages 1, 2, ... of the open issues, 100 to
    a page, one request each; it goes on while the pages are not empty, a
    page of pull requests only included, and stops at the first empty page;
    the result is the issues of the pages read, in page order. *)
Theorem fetch_pages_until_empty
        (host : GitHubService.Host) (repo : string)
        (pages : list (list GitHubService.Item)) (fuel : nat) :
  serves host repo 1 pages ->
  List.length pages < fuel ->
  GitHubService.fetchAllIssues fuel host repo
  = Some (Ok (flat_map kept pages),
          map (fun n =>
                 {| GitHubService.url :=
                      "https://api.github.com/repos/" ++ repo ++ "/issues";
                    GitHubService.params :=
                      {| GitHubService.state := "open";
                         GitHubService.page := n;
                         GitHubService.per_page := 100 |} |})
              (seq 1 (S (List.length pages)))).
Proof.
  intros Hs Hf. unfold GitHubService.fetchAllIssues.
  rewrite (fetch_loop_serves host repo pages fuel 1 [] [] Hs Hf).
  reflexivity.
Qed.

(** On the sample host: four requests, the page of pull requests does not
    end the loop. *)
Lemma fetch_pages_until_empty_witness :
  GitHubService.fetchAllIssues 4 demo_host "octo/demo"
  = Some (Ok [GitHubService.to_issue (demo_item 1 (Some "first") false);
              GitHubService.to_issue (demo_item 3 None false);
              GitHubService.to_issue (demo_item 5 (Some "") false)],
          map (fun n => GitHubService.request_page "octo/demo" n 100)
              [1; 2; 3; 4]).
Proof.
  rewrite (fetch_pages_until_empty demo_host "octo/demo" demo_pages 4).
  - reflexivity.
  - simpl. repeat split; discriminate.
  - simpl. lia.
Defined.
(** ** JSON: [parse] after [stringify] *)

(** Induction over values, with the hypothesis for every element of an
    array and every property value of an object. *)
Lemma value_ind (P : JSON.value -> Prop)
      (HNull : P JSON.Null)
      (HBool : forall b, P (JSON.Bool b))
      (HNumber : forall n, P (JSON.Number n))
      (HStr : forall s, P (JSON.Str s))
      (HArray : forall elements, Forall P elements -> P (JSON.Array elements))
      (HObject : forall properties,
          Forall (fun p => P (snd p)) properties ->
          P (JSON.Object properties)) :
  forall v, P v.
Proof.
  fix IH 1. intros [| b | n | s | elements | properties].
  - exact HNull.
  - apply HBool.
  - apply HNumber.
  - apply HStr.
  - apply HArray. induction elements as [|e elements IHe]; constructor.
    + apply IH.
    + exact IHe.
  - apply HObject. induction properties as [|p properties IHp]; constructor.
    + apply IH.
    + exact IHp.
Qed.

(** *** String literals *)

Lemma parse_chars_escape_unit (c : ascii) (tail : string) :
  JSON.parse_chars (JSON.escape_unit c ++ tail)
  = match JSON.parse_chars tail with
    | Some (str, after) => Some (String c str, after)
    | None => None
    end.
Proof.
  destruct c as [[] [] [] [] [] [] [] []]; reflexivity.
Qed.

Lemma parse_chars_escape (s rest : string) :
  JSON.parse_chars (JSON.escape s ++ String JSON.quote rest) = Some (s, rest).
Proof.
  induction s as [|c s IH]; [reflexivity|].
  cbn [JSON.escape]. rewrite append_assoc, parse_chars_escape_unit, IH.
  reflexivity.
Qed.

Lemma quote_string_append (s rest : string) :
  JSON.quote_string s ++ rest
  = String JSON.quote (JSON.escape s ++ String JSON.quote rest).
Proof.
  unfold JSON.quote_string. cbn [append]. now rewrite append_assoc.
Qed.

(** *** Numbers *)

Lemma read_digits_digits (d : Decimal.uint) (rest : string) :
  no_digit rest -> JSON.read_digits (JS.digits d ++ rest) = (d, rest).
Proof.
  intros Hrest. induction d; cbn; rewrite ?IHd; try reflexivity.
  destruct rest as [|c rest]; [reflexivity|].
  cbn in Hrest |- *. now rewrite Hrest.
Qed.

(** The decimal digits of a positive number do not start with a zero. *)
Lemma to_uint_head (p : positive) :
  exists c tail,
    JS.digits (N.to_uint (Npos p)) = String c tail
    /\ Ascii.eqb c "0" = false
    /\ JSON.digit_of c <> None.
Proof.
  pose proof (DecimalN.Unsigned.to_of (N.to_uint (Npos p))) as Hnorm.
  rewrite DecimalN.Unsigned.of_to in Hnorm.
  pose proof (DecimalPos.Unsigned.to_uint_nonnil p) as Hnil.
  pose proof (DecimalPos.Unsigned.to_uint_nonzero p) as Hzero.
  change (N.to_uint (Npos p)) with (Pos.to_uint p) in *.
  destruct (Pos.to_uint p) as [|d|d|d|d|d|d|d|d|d|d] eqn:E;
    try congruence;
    try (eexists; eexists; split; [reflexivity|split; [reflexivity|discriminate]]).
  exfalso. rewrite DecimalFacts.unorm_D0 in Hnorm.
  destruct d as [|d|d|d|d|d|d|d|d|d|d];
    try (apply Hzero; reflexivity).
  all: match type of Hnorm with
       | Decimal.D0 ?u = _ =>
           assert (Hu : u <> Decimal.Nil) by discriminate;
           pose proof (DecimalFacts.nb_digits_unorm u Hu) as Hle;
           rewrite <- Hnorm in Hle; cbn in Hle; lia
       end.
Qed.

Lemma digit_is_no_punctuation (c : ascii) :
  JSON.digit_of c <> None ->
  JSON.is_ws c = false
  /\ Ascii.eqb c "n" = false /\ Ascii.eqb c "t" = false
  /\ Ascii.eqb c "f" = false /\ Ascii.eqb c JSON.quote = false
  /\ Ascii.eqb c "[" = false /\ Ascii.eqb c "{" = false
  /\ Ascii.eqb c "-" = false.
Proof.
  destruct c as [[] [] [] [] [] [] [] []]; cbn; intros H;
    try congruence; repeat split.
Qed.

Lemma starts_value_is_no_separator (c : ascii) :
  starts_value c = true ->
  JSON.is_ws c = false
  /\ Ascii.eqb c "]" = false /\ Ascii.eqb c "}" = false
  /\ Ascii.eqb c "," = false.
Proof.
  destruct c as [[] [] [] [] [] [] [] []]; cbn; intros H;
    try discriminate; repeat split.
Qed.

Lemma parse_unsigned_positive (p : positive) (rest : string) :
  no_digit rest ->
  JSON.parse_unsigned (JS.digits (N.to_uint (Npos p)) ++ rest)
  = Some (Npos p, rest).
Proof.
  intros Hrest.
  destruct (to_uint_head p) as (c & tail & E & Hzero & Hdigit).
  pose proof (read_digits_digits (N.to_uint (Npos p)) rest Hrest) as Hread.
  rewrite E in *. cbn [append] in *. unfold JSON.parse_unsigned.
  rewrite Hzero, Hread.
  destruct (JSON.digit_of c); [|congruence].
  now rewrite DecimalN.Unsigned.of_to.
Qed.

(** *** White space *)

Lemma skip_ws_spaces (n : nat) (s : string) :
  JSON.skip_ws (JSON.spaces n ++ s) = JSON.skip_ws s.
Proof. induction n as [|n IH]; [reflexivity|exact IH]. Qed.

Lemma skip_ws_line_break (n : nat) (s : string) :
  JSON.skip_ws (JSON.line_break n ++ s) = JSON.skip_ws s.
Proof. exact (skip_ws_spaces n s). Qed.

Lemma skip_ws_head (c : ascii) (s : string) :
  JSON.is_ws c = false -> JSON.skip_ws (String c s) = String c s.
Proof. intros H. cbn. now rewrite H. Qed.

Lemma skip_ws_idempotent (s : string) :
  JSON.skip_ws (JSON.skip_ws s) = JSON.skip_ws s.
Proof.
  induction s as [|c s IH]; [reflexivity|].
  cbn. destruct (JSON.is_ws c) eqn:E; [exact IH|].
  cbn. now rewrite E.
Qed.

(** *** Unfolding the parser *)

Lemma parse_value_S (fuel : nat) (s : string) :
  JSON.parse_value (S fuel) s
  = match JSON.skip_ws s with
    | EmptyString => None
    | String c rest =>
        if Ascii.eqb c "n" then JSON.keyword "ull" rest JSON.Null
        else if Ascii.eqb c "t" then JSON.keyword "rue" rest (JSON.Bool true)
        else if Ascii.eqb c "f" then JSON.keyword "alse" rest (JSON.Bool false)
        else if Ascii.eqb c JSON.quote then
          match JSON.parse_chars rest with
          | Some (str, after) => Some (JSON.Str str, after)
          | None => None
          end
        else if Ascii.eqb c "[" then
          match JSON.expect "]" (JSON.skip_ws rest) with
          | Some after => Some (JSON.Array [], after)
          | None => JSON.parse_elements fuel rest []
          end
        else if Ascii.eqb c "{" then
          match JSON.expect "}" (JSON.skip_ws rest) with
          | Some after => Some (JSON.Object [], after)
          | None => JSON.parse_members fuel rest []
          end
        else JSON.parse_number (String c rest)
    end.
Proof. reflexivity. Qed.

Lemma parse_elements_S (fuel : nat) (s : string) (acc : list JSON.value) :
  JSON.parse_elements (S fuel) s acc
  = match JSON.parse_value fuel s with
    | Some (v, after) =>
        match JSON.expect "," (JSON.skip_ws after) with
        | Some more => JSON.parse_elements fuel more (acc ++ [v])%list
        | None =>
            match JSON.expect "]" (JSON.skip_ws after) with
            | Some rest => Some (JSON.Array (acc ++ [v])%list, rest)
            | None => None
            end
        end
    | None => None
    end.
Proof. reflexivity. Qed.

Lemma parse_members_S (fuel : nat) (s : string)
      (acc : list (string * JSON.value)) :
  JSON.parse_members (S fuel) s acc
  = match JSON.expect JSON.quote (JSON.skip_ws s) with
    | Some after_quote =>
        match JSON.parse_chars after_quote with
        | Some (key, after_key) =>
            match JSON.expect ":" (JSON.skip_ws after_key) with
            | Some after_colon =>
                match JSON.parse_value fuel after_colon with
                | Some (v, after) =>
                    match JSON.expect "," (JSON.skip_ws after) with
                    | Some more =>
                        JSON.parse_members fuel more (JSON.define key v acc)
                    | None =>
                        match JSON.expect "}" (JSON.skip_ws after) with
                        | Some rest =>
                            Some (JSON.Object (JSON.define key v acc), rest)
                        | None => None
                        end
                    end
                | None => None
                end
            | None => None
            end
        | None => None
        end
    | None => None
    end.
Proof. reflexivity. Qed.

(** Leading white space does not matter to the parser. *)
Lemma parse_value_skip_ws (fuel : nat) (s : string) :
  JSON.parse_value fuel (JSON.skip_ws s) = JSON.parse_value fuel s.
Proof.
  destruct fuel as [|fuel]; [reflexivity|].
  now rewrite !parse_value_S, skip_ws_idempotent.
Qed.

Lemma parse_elements_skip_ws (fuel : nat) (s : string) acc :
  JSON.parse_elements fuel (JSON.skip_ws s) acc
  = JSON.parse_elements fuel s acc.
Proof.
  destruct fuel as [|fuel]; [reflexivity|].
  now rewrite !parse_elements_S, parse_value_skip_ws.
Qed.

Lemma parse_members_skip_ws (fuel : nat) (s : string) acc :
  JSON.parse_members fuel (JSON.skip_ws s) acc
  = JSON.parse_members fuel s acc.
Proof.
  destruct fuel as [|fuel]; [reflexivity|].
  now rewrite !parse_members_S, skip_ws_idempotent.
Qed.

(** *** Numbers, again *)

Lemma parse_value_number (n : Z) (fuel : nat) (rest : string) :
  no_digit rest ->
  JSON.parse_value (S fuel) (JS.number_to_string n ++ rest)
  = Some (JSON.Number n, rest).
Proof.
  intros Hrest. rewrite parse_value_S. destruct n as [|p|p].
  - reflexivity.
  - cbn [JS.number_to_string].
    pose proof (parse_unsigned_positive p rest Hrest) as Hp.
    destruct (to_uint_head p) as (c & tail & E & _ & Hdigit).
    rewrite E in *. cbn [append] in *.
    destruct (digit_is_no_punctuation c Hdigit)
      as (Hws & Hn & Ht & Hf & Hq & Ha & Ho & Hm).
    rewrite (skip_ws_head _ _ Hws), Hn, Ht, Hf, Hq, Ha, Ho.
    unfold JSON.parse_number. now rewrite Hm, Hp.
  - cbn [JS.number_to_string append].
    rewrite skip_ws_head by reflexivity.
    cbn -[JSON.parse_unsigned N.to_uint].
    now rewrite (parse_unsigned_positive p rest Hrest).
Qed.

(** *** The first character of a serialised value *)

Lemma serialize_head (indent : nat) (v : JSON.value) :
  exists c tail,
    JSON.serialize indent v = String c tail /\ starts_value c = true.
Proof.
  destruct v as [| [] | [|p|p] | s | [|e es] | [|p ps]];
    try (do 2 eexists; split; [reflexivity|reflexivity]).
  destruct (to_uint_head p) as (c & tail & E & _ & Hdigit).
  exists c, tail. split; [exact E|].
  unfold starts_value. destruct (JSON.digit_of c); congruence.
Qed.

(** *** Arrays *)

Lemma length_line_break (n : nat) : String.length (JSON.line_break n) = S n.
Proof.
  unfold JSON.line_break. cbn. f_equal.
  induction n as [|n IH]; [reflexivity|]. cbn. now rewrite IH.
Qed.

(** Lengths of concatenations, for the fuel. *)
Ltac lengths :=
  rewrite ?length_append, ?length_line_break in *;
  cbn [String.length] in *; lia.

Lemma serialize_array (indent : nat) (e : JSON.value) (es : list JSON.value) :
  JSON.serialize indent (JSON.Array (e :: es))
  = "[" ++ JSON.line_break (indent + 2)
    ++ elements_text (indent + 2) (e :: es)
    ++ JSON.line_break indent ++ "]".
Proof. reflexivity. Qed.

Lemma serialize_object (indent : nat) (p : string * JSON.value)
      (ps : list (string * JSON.value)) :
  JSON.serialize indent (JSON.Object (p :: ps))
  = "{" ++ JSON.line_break (indent + 2)
    ++ properties_text (indent + 2) (p :: ps)
    ++ JSON.line_break indent ++ "}".
Proof. reflexivity. Qed.

Lemma parse_elements_line_break (fuel n : nat) (s : string) acc :
  JSON.parse_elements fuel (JSON.line_break n ++ s) acc
  = JSON.parse_elements fuel s acc.
Proof.
  rewrite <- parse_elements_skip_ws, skip_ws_line_break.
  apply parse_elements_skip_ws.
Qed.

Lemma parse_members_line_break (fuel n : nat) (s : string) acc :
  JSON.parse_members fuel (JSON.line_break n ++ s) acc
  = JSON.parse_members fuel s acc.
Proof.
  rewrite <- parse_members_skip_ws, skip_ws_line_break.
  apply parse_members_skip_ws.
Qed.

Lemma no_digit_line_break (n : nat) (s : string) :
  no_digit (JSON.line_break n ++ s).
Proof. reflexivity. Qed.

Lemma elements_text_cons (indent : nat) (e e' : JSON.value) es :
  elements_text indent (e :: e' :: es)
  = JSON.serialize indent e
    ++ "," ++ JSON.line_break indent ++ elements_text indent (e' :: es).
Proof.
  unfold elements_text. rewrite map_cons, join_cons by discriminate.
  now rewrite !append_assoc.
Qed.

Lemma expect_comma (s : string) :
  JSON.expect "," (JSON.skip_ws ("," ++ s)) = Some s.
Proof. reflexivity. Qed.

Lemma expect_closing (c : ascii) (n : nat) (rest : string) :
  JSON.is_ws c = false -> Ascii.eqb c "," = false ->
  JSON.expect "," (JSON.skip_ws (JSON.line_break n ++ String c rest)) = None
  /\ JSON.expect c (JSON.skip_ws (JSON.line_break n ++ String c rest))
     = Some rest.
Proof.
  intros Hws Hc. rewrite skip_ws_line_break, skip_ws_head by exact Hws.
  cbn. now rewrite Hc, Ascii.eqb_refl.
Qed.

Lemma parse_elements_text (es : list JSON.value) :
  es <> [] ->
  Forall reads_back es ->
  forall indent outer acc fuel rest,
    String.length (elements_text indent es ++ JSON.line_break outer ++ "]")
    <= fuel ->
    JSON.parse_elements
      fuel (elements_text indent es ++ JSON.line_break outer ++ String "]" rest)
      acc
    = Some (JSON.Array (acc ++ es)%list, rest).
Proof.
  induction es as [|e es IH]; [congruence|].
  intros _ Hall indent outer acc fuel rest Hfuel.
  inversion Hall as [|? ? He Hes]; subst.
  destruct fuel as [|fuel].
  { lengths. }
  rewrite parse_elements_S.
  destruct es as [|e' es].
  - change (elements_text indent [e]) with (JSON.serialize indent e) in *.
    rewrite !length_append, length_line_break in Hfuel.
    cbn [String.length] in Hfuel.
    rewrite He; [|lia|apply no_digit_line_break].
    destruct (expect_closing "]" outer rest) as [-> ->]; reflexivity.
  - rewrite elements_text_cons in *. rewrite !append_assoc in *.
    rewrite !length_append, !length_line_break in Hfuel.
    cbn [String.length] in Hfuel.
    rewrite He; [|lia|reflexivity].
    rewrite expect_comma, parse_elements_line_break.
    rewrite IH; [|discriminate|exact Hes|].
    + now rewrite <- List.app_assoc.
    + lengths.
Qed.

(** *** Objects *)

Lemma properties_text_cons (indent : nat) (p p' : string * JSON.value) ps :
  properties_text indent (p :: p' :: ps)
  = property_text indent p
    ++ "," ++ JSON.line_break indent ++ properties_text indent (p' :: ps).
Proof.
  unfold properties_text. rewrite map_cons, join_cons by discriminate.
  now rewrite !append_assoc.
Qed.

Lemma expect_key (key rest : string) :
  JSON.expect JSON.quote (JSON.skip_ws (JSON.quote_string key ++ rest))
  = Some (JSON.escape key ++ String JSON.quote rest).
Proof.
  rewrite quote_string_append, skip_ws_head by reflexivity.
  cbn [JSON.expect]. now rewrite Ascii.eqb_refl.
Qed.

Lemma expect_colon (s : string) :
  JSON.expect ":" (JSON.skip_ws (": " ++ s)) = Some (String " " s).
Proof. reflexivity. Qed.

Lemma parse_value_space (fuel : nat) (s : string) :
  JSON.parse_value fuel (String " " s) = JSON.parse_value fuel s.
Proof.
  rewrite <- parse_value_skip_ws.
  change (JSON.skip_ws (String " " s)) with (JSON.skip_ws s).
  apply parse_value_skip_ws.
Qed.

Lemma length_quote_string (s : string) :
  0 < String.length (JSON.quote_string s).
Proof. unfold JSON.quote_string. cbn. lia. Qed.

Lemma distinct_app_fresh (acc : list string) (k : string) (rest : list string) :
  JSON.distinct (acc ++ k :: rest) = true ->
  Forall (fun a => String.eqb a k = false) acc.
Proof.
  induction acc as [|a acc IH]; intros H; [constructor|].
  cbn in H. apply andb_true_iff in H as [Ha Hd].
  constructor; [|exact (IH Hd)].
  rewrite negb_true_iff in Ha. rewrite existsb_app in Ha.
  apply orb_false_iff in Ha as [_ Ha]. cbn in Ha.
  now apply orb_false_iff in Ha as [Ha _].
Qed.

Lemma define_fresh (key : string) (v : JSON.value)
      (acc : list (string * JSON.value)) :
  Forall (fun a => String.eqb a key = false) (map fst acc) ->
  JSON.define key v acc = (acc ++ [(key, v)])%list.
Proof.
  induction acc as [|[k w] acc IH]; intros H; [reflexivity|].
  inversion H as [|? ? Hk Hacc]; subst. cbn in Hk |- *.
  now rewrite Hk, IH.
Qed.

Lemma parse_properties_text (ps : list (string * JSON.value)) :
  ps <> [] ->
  Forall (fun p => reads_back (snd p)) ps ->
  forall indent outer acc fuel rest,
    JSON.distinct (map fst (acc ++ ps)) = true ->
    String.length (properties_text indent ps ++ JSON.line_break outer ++ "}")
    <= fuel ->
    JSON.parse_members
      fuel
      (properties_text indent ps ++ JSON.line_break outer ++ String "}" rest)
      acc
    = Some (JSON.Object (acc ++ ps)%list, rest).
Proof.
  induction ps as [|[k v] ps IH]; [congruence|].
  intros _ Hall indent outer acc fuel rest Hkeys Hfuel.
  inversion Hall as [|? ? Hv Hps]; subst. cbn [snd] in Hv.
  destruct fuel as [|fuel].
  { lengths. }
  assert (Hdef : JSON.define k v acc = (acc ++ [(k, v)])%list).
  { apply define_fresh. rewrite map_app in Hkeys.
    exact (distinct_app_fresh _ _ _ Hkeys). }
  rewrite parse_members_S.
  pose proof (length_quote_string k) as Hk.
  destruct ps as [|p' ps].
  - change (properties_text indent [(k, v)])
      with (property_text indent (k, v)) in *.
    unfold property_text in *. cbn [fst snd] in *.
    rewrite !append_assoc in *.
    rewrite !length_append, length_line_break in Hfuel.
    cbn [String.length] in Hfuel.
    rewrite expect_key, parse_chars_escape, expect_colon, parse_value_space.
    rewrite Hv; [|lia|apply no_digit_line_break].
    destruct (expect_closing "}" outer rest) as [-> ->]; try reflexivity.
    now rewrite Hdef.
  - rewrite properties_text_cons in *. unfold property_text at 1 in Hfuel.
    unfold property_text at 1. cbn [fst snd] in *.
    rewrite !append_assoc in *.
    rewrite !length_append, !length_line_break in Hfuel.
    cbn [String.length] in Hfuel.
    rewrite expect_key, parse_chars_escape, expect_colon, parse_value_space.
    rewrite Hv; [|lia|reflexivity].
    rewrite expect_comma, parse_members_line_break, Hdef.
    rewrite IH; [|discriminate|exact Hps| |].
    + now rewrite <- List.app_assoc.
    + now rewrite <- List.app_assoc.
    + lengths.
Qed.

(** *** Values *)

Lemma forallb_Forall {A : Type} (f : A -> bool) (P : A -> Prop) (l : list A) :
  Forall (fun a => f a = true -> P a) l ->
  forallb f l = true -> Forall P l.
Proof.
  induction 1 as [|a l Ha _ IH]; intros H; [constructor|].
  cbn in H. apply andb_true_iff in H as [Hfa Hl].
  constructor; auto.
Qed.

(** Every well-formed value is read back from its serialisation. *)
Lemma parse_value_serialize (v : JSON.value) :
  JSON.well_formed v = true -> reads_back v.
Proof.
  induction v as [| b | n | s | es IH | ps IH] using value_ind;
    intros Hwf indent fuel rest Hfuel Hrest;
    (destruct fuel as [|fuel]; [lia|]).
  - reflexivity.
  - destruct b; reflexivity.
  - now apply parse_value_number.
  - cbn [JSON.serialize]. rewrite parse_value_S, quote_string_append.
    rewrite skip_ws_head by reflexivity.
    cbn -[JSON.parse_chars]. now rewrite parse_chars_escape.
  - destruct es as [|e es]; [reflexivity|].
    cbn [JSON.well_formed] in Hwf.
    pose proof (forallb_Forall _ _ _ IH Hwf) as Hall.
    rewrite serialize_array in *. rewrite !append_assoc in *.
    rewrite parse_value_S.
    cbn [append] in Hfuel |- *. cbn [String.length] in Hfuel.
    rewrite skip_ws_head by reflexivity.
    cbn [Ascii.eqb Bool.eqb andb].
    destruct (serialize_head (indent + 2) e) as (c & tail & Ec & Hc).
    destruct (starts_value_is_no_separator c Hc) as (Hws & Hclose & _).
    assert (Hnext : JSON.expect "]"
                      (JSON.skip_ws
                         (JSON.line_break (indent + 2)
                          ++ elements_text (indent + 2) (e :: es)
                          ++ JSON.line_break indent ++ String "]" rest))
                    = None).
    { rewrite skip_ws_line_break.
      destruct es as [|e' es].
      - change (elements_text (indent + 2) [e])
          with (JSON.serialize (indent + 2) e).
        rewrite Ec. cbn [append]. rewrite skip_ws_head by exact Hws.
        cbn. now rewrite Hclose.
      - rewrite elements_text_cons, Ec. cbn [append].
        rewrite skip_ws_head by exact Hws.
        cbn. now rewrite Hclose. }
    rewrite Hnext, parse_elements_line_break.
    rewrite (parse_elements_text (e :: es)); [reflexivity|discriminate|exact Hall|].
    lengths.
  - destruct ps as [|p ps]; [reflexivity|].
    cbn [JSON.well_formed] in Hwf. apply andb_true_iff in Hwf as [Hkeys Hwf].
    pose proof (forallb_Forall (fun p => JSON.well_formed (snd p))
                               (fun p => reads_back (snd p)) _ IH Hwf) as Hall.
    rewrite serialize_object in *. rewrite !append_assoc in *.
    rewrite parse_value_S.
    cbn [append] in Hfuel |- *. cbn [String.length] in Hfuel.
    rewrite skip_ws_head by reflexivity.
    cbn [Ascii.eqb Bool.eqb andb].
    assert (Hnext : JSON.expect "}"
                      (JSON.skip_ws
                         (JSON.line_break (indent + 2)
                          ++ properties_text (indent + 2) (p :: ps)
                          ++ JSON.line_break indent ++ String "}" rest))
                    = None).
    { rewrite skip_ws_line_break.
      destruct ps as [|p' ps].
      - change (properties_text (indent + 2) [p])
          with (property_text (indent + 2) p).
        unfold property_text. rewrite !append_assoc, quote_string_append.
        reflexivity.
      - rewrite properties_text_cons. unfold property_text at 1.
        rewrite !append_assoc, quote_string_append. reflexivity. }
    rewrite Hnext, parse_members_line_break.
    rewrite (parse_properties_text (p :: ps));
      [reflexivity|discriminate|exact Hall|exact Hkeys|].
    lengths.
Qed.

(** [JSON.parse(JSON.stringify(v, null, 2))] is [v]. *)
Lemma parse_stringify (v : JSON.value) :
  JSON.well_formed v = true -> JSON.parse (JSON.stringify v) = Some v.
Proof.
  intros Hwf. unfold JSON.parse, JSON.stringify.
  pose proof (parse_value_serialize v Hwf 0
                (S (String.length (JSON.serialize 0 v))) "") as H.
  rewrite append_nil_r in H. rewrite H; [reflexivity|lia|exact I].
Qed.

Example parse_stringify_entry :
  let v := Cache_value
             [("octo/demo",
               {| issues := [demo_issue 1 (Some "a \ b"); demo_issue (-20) None];
                  last_updated := "2024-01-01T00:00:00.000Z" |});
              ("a/b", {| issues := []; last_updated := "" |})] in
  JSON.parse (JSON.stringify v) = Some v.
Proof. vm_compute. reflexivity. Qed.

(** *** What [parse] returns is well formed *)

Lemma existsb_define (a key : string) (v : JSON.value)
      (props : list (string * JSON.value)) :
  existsb (String.eqb a) (map fst (JSON.define key v props))
  = existsb (String.eqb a) (map fst props) || String.eqb a key.
Proof.
  induction props as [|[k w] props IH]; cbn.
  - apply orb_comm.
  - destruct (String.eqb_spec k key) as [->|Hne]; cbn.
    + destruct (String.eqb a key), (existsb (String.eqb a) (map fst props));
        reflexivity.
    + now rewrite IH, orb_assoc.
Qed.

Lemma distinct_define (key : string) (v : JSON.value)
      (props : list (string * JSON.value)) :
  JSON.distinct (map fst props) = true ->
  JSON.distinct (map fst (JSON.define key v props)) = true.
Proof.
  induction props as [|[k w] props IH]; cbn; [reflexivity|].
  intros H. apply andb_true_iff in H as [Hk Hd].
  destruct (String.eqb_spec k key) as [->|Hne]; cbn.
  - now rewrite Hk, Hd.
  - rewrite existsb_define, IH by exact Hd.
    rewrite negb_true_iff in Hk. rewrite Hk.
    apply String.eqb_neq in Hne. now rewrite Hne.
Qed.

Lemma well_formed_define (key : string) (v : JSON.value)
      (props : list (string * JSON.value)) :
  JSON.well_formed v = true ->
  forallb (fun p => JSON.well_formed (snd p)) props = true ->
  forallb (fun p => JSON.well_formed (snd p)) (JSON.define key v props) = true.
Proof.
  intros Hv. induction props as [|[k w] props IH]; cbn.
  - now rewrite Hv.
  - intros H. apply andb_true_iff in H as [Hw Hp].
    destruct (String.eqb k key); cbn.
    + now rewrite Hv, Hp.
    + now rewrite Hw, IH.
Qed.

Lemma well_formed_object_define (key : string) (v : JSON.value)
      (props : list (string * JSON.value)) :
  JSON.well_formed v = true ->
  JSON.well_formed (JSON.Object props) = true ->
  JSON.well_formed (JSON.Object (JSON.define key v props)) = true.
Proof.
  cbn [JSON.well_formed]. intros Hv H.
  apply andb_true_iff in H as [Hd Hp].
  now rewrite distinct_define, well_formed_define.
Qed.

Lemma keyword_value (word s : string) (v0 v : JSON.value) (rest : string) :
  JSON.keyword word s v0 = Some (v, rest) -> v = v0.
Proof.
  revert s. induction word as [|a word IH]; intros s; cbn.
  - congruence.
  - destruct s as [|b s]; [discriminate|].
    destruct (Ascii.eqb a b); [apply IH|discriminate].
Qed.

Lemma parse_number_value (s : string) (v : JSON.value) (rest : string) :
  JSON.parse_number s = Some (v, rest) -> JSON.well_formed v = true.
Proof.
  unfold JSON.parse_number. destruct s as [|c s]; [discriminate|].
  destruct (Ascii.eqb c "-").
  - destruct (JSON.parse_unsigned s) as [[n after]|]; [|discriminate].
    intros [= <- _]. reflexivity.
  - destruct (JSON.parse_unsigned (String c s)) as [[n after]|];
      [|discriminate].
    intros [= <- _]. reflexivity.
Qed.

Lemma parse_well_formed_fuel (fuel : nat) :
  (forall s v rest,
      JSON.parse_value fuel s = Some (v, rest) -> JSON.well_formed v = true)
  /\ (forall s acc v rest,
         JSON.parse_elements fuel s acc = Some (v, rest) ->
         forallb JSON.well_formed acc = true ->
         JSON.well_formed v = true)
  /\ (forall s acc v rest,
         JSON.parse_members fuel s acc = Some (v, rest) ->
         JSON.well_formed (JSON.Object acc) = true ->
         JSON.well_formed v = true).
Proof.
  induction fuel as [|fuel (IHv & IHe & IHm)];
    [repeat split; intros; discriminate|].
  split; [|split].
  - intros s v rest. rewrite parse_value_S.
    destruct (JSON.skip_ws s) as [|c tail]; [discriminate|].
    destruct (Ascii.eqb c "n");
      [intros H; now rewrite (keyword_value _ _ _ _ _ H)|].
    destruct (Ascii.eqb c "t");
      [intros H; now rewrite (keyword_value _ _ _ _ _ H)|].
    destruct (Ascii.eqb c "f");
      [intros H; now rewrite (keyword_value _ _ _ _ _ H)|].
    destruct (Ascii.eqb c JSON.quote).
    { destruct (JSON.parse_chars tail) as [[str after]|]; [|discriminate].
      intros [= <- _]. reflexivity. }
    destruct (Ascii.eqb c "[").
    { destruct (JSON.expect "]" (JSON.skip_ws tail)).
      - intros [= <- _]. reflexivity.
      - intros H. now apply (IHe _ _ _ _ H). }
    destruct (Ascii.eqb c "{").
    { destruct (JSON.expect "}" (JSON.skip_ws tail)).
      - intros [= <- _]. reflexivity.
      - intros H. now apply (IHm _ _ _ _ H). }
    apply parse_number_value.
  - intros s acc v rest. rewrite parse_elements_S.
    destruct (JSON.parse_value fuel s) as [[e after]|] eqn:Ee; [|discriminate].
    apply IHv in Ee. intros H Hacc.
    assert (Hall : forallb JSON.well_formed (acc ++ [e]) = true).
    { rewrite forallb_app. cbn. now rewrite Hacc, Ee. }
    destruct (JSON.expect "," (JSON.skip_ws after)).
    + now apply (IHe _ _ _ _ H).
    + destruct (JSON.expect "]" (JSON.skip_ws after)); [|discriminate].
      injection H as <- _. exact Hall.
  - intros s acc v rest. rewrite parse_members_S.
    destruct (JSON.expect JSON.quote (JSON.skip_ws s)); [|discriminate].
    destruct (JSON.parse_chars s0) as [[key after_key]|]; [|discriminate].
    destruct (JSON.expect ":" (JSON.skip_ws after_key)); [|discriminate].
    destruct (JSON.parse_value fuel s1) as [[e after]|] eqn:Ee; [|discriminate].
    apply IHv in Ee. intros H Hacc.
    pose proof (well_formed_object_define key e acc Ee Hacc) as Hall.
    destruct (JSON.expect "," (JSON.skip_ws after)).
    + now apply (IHm _ _ _ _ H).
    + destruct (JSON.expect "}" (JSON.skip_ws after)); [|discriminate].
      injection H as <- _. exact Hall.
Qed.

Lemma parse_well_formed (text : string) (v : JSON.value) :
  JSON.parse text = Some v -> JSON.well_formed v = true.
Proof.
  unfold JSON.parse.
  destruct (JSON.parse_value _ text) as [[w rest]|] eqn:E; [|discriminate].
  destruct (JSON.skip_ws rest); [|discriminate].
  intros [= <-].
  exact (proj1 (parse_well_formed_fuel _) _ _ _ E).
Qed.

(** ** The cache *)

Lemma well_formed_issue (issue : GitHubIssue) :
  JSON.well_formed (GitHubIssue_value issue) = true.
Proof. destruct issue as [n t [b|] u c]; reflexivity. Qed.

Lemma well_formed_entry (entry : CachedRepo) :
  JSON.well_formed (CachedRepo_value entry) = true.
Proof.
  cbn. rewrite andb_true_r.
  induction (issues entry) as [|issue l IH]; [reflexivity|].
  cbn [map forallb]. now rewrite well_formed_issue.
Qed.

Lemma Cache_value_keys (cache : Cache) :
  map fst (map (fun kv => (fst kv, CachedRepo_value (snd kv))) cache)
  = map fst cache.
Proof.
  induction cache as [|kv cache IH]; [reflexivity|].
  cbn [map fst]. now rewrite IH.
Qed.

Lemma well_formed_cache (cache : Cache) :
  JSON.distinct (map fst cache) = true ->
  JSON.well_formed (Cache_value cache) = true.
Proof.
  intros H. unfold Cache_value. cbn [JSON.well_formed].
  rewrite Cache_value_keys, H. cbn [andb]. clear H.
  induction cache as [|[k entry] cache IH]; [reflexivity|].
  cbn [map forallb snd]. now rewrite well_formed_entry.
Qed.

Lemma as_issue_value (issue : GitHubIssue) :
  as_issue (GitHubIssue_value issue) = Some issue.
Proof. destruct issue as [n t [b|] u c]; reflexivity. Qed.

Lemma as_issues_value (l : list GitHubIssue) :
  as_issues (map GitHubIssue_value l) = Some l.
Proof.
  induction l as [|issue l IH]; [reflexivity|].
  cbn [map as_issues]. now rewrite as_issue_value, IH.
Qed.

Lemma own_define_same (key : string) (v : JSON.value) props :
  JSObject.own key (JSON.define key v props) = Some v.
Proof.
  induction props as [|[k w] props IH]; cbn.
  - now rewrite String.eqb_refl.
  - destruct (String.eqb k key) eqn:E; cbn; rewrite E; [reflexivity|exact IH].
Qed.

Lemma own_define_other (key other : string) (v : JSON.value) props :
  other <> key ->
  JSObject.own other (JSON.define key v props) = JSObject.own other props.
Proof.
  intros Hne. induction props as [|[k w] props IH]; cbn.
  - apply String.eqb_neq in Hne. rewrite String.eqb_sym in Hne.
    now rewrite Hne.
  - destruct (String.eqb_spec k key) as [->|Hk]; cbn.
    + apply String.eqb_neq in Hne. rewrite String.eqb_sym in Hne.
      now rewrite Hne.
    + now rewrite IH.
Qed.


(** [loadCache] always returns, and what it returns is well formed. *)
Lemma loadCache_returns (fs : Fs.state) :
  exists cache,
    CacheService.loadCache fs = Ok cache /\ JSON.well_formed cache = true.
Proof.
  unfold CacheService.loadCache, Fs.existsSync, Fs.readFileSync,
    CacheService.JSON_parse.
  destruct (Fs.cache_file fs) as [| |data]; cbn; eauto.
  destruct (JSON.parse data) as [v|] eqn:E; cbn; eauto.
  exists v. split; [reflexivity|]. exact (parse_well_formed _ _ E).
Qed.

Lemma loadCache_well_formed (fs : Fs.state) (cache : JSON.value) :
  CacheService.loadCache fs = Ok cache -> JSON.well_formed cache = true.
Proof.
  destruct (loadCache_returns fs) as (c & -> & Hwf). now intros [= <-].
Qed.

(** Loading what a successful save has written. *)
Lemma loadCache_after_save (cache : JSON.value) (fs fs' : Fs.state) :
  JSON.well_formed cache = true ->
  CacheService.saveCache cache fs = (Ok tt, fs') ->
  CacheService.loadCache fs' = Ok cache.
Proof.
  intros Hwf. unfold CacheService.saveCache, Fs.writeFileSync.
  destruct (Fs.writable fs); [|discriminate].
  intros [= <-].
  unfold CacheService.loadCache, CacheService.JSON_parse. cbn.
  now rewrite parse_stringify.
Qed.

Lemma saveCache_outcome (cache : JSON.value) (fs : Fs.state) :
  CacheService.saveCache cache fs
  = if Fs.writable fs
    then (Ok tt, {| Fs.cache_file := Fs.Contents (JSON.stringify cache);
                    Fs.writable := true |})
    else (Throw "Failed to save cache to file", fs).
Proof.
  unfold CacheService.saveCache, Fs.writeFileSync.
  now destruct (Fs.writable fs).
Qed.

(** A store that succeeds, in the terms of the cache before it. *)
Lemma storeIssues_succeeds (repo : string) (l : list GitHubIssue)
      (now : string) (fs fs' : Fs.state) :
  CacheService.storeIssues repo l now fs = (Ok tt, fs') ->
  exists props props',
    CacheService.loadCache fs = Ok (JSON.Object props)
    /\ JSObject.set (JSON.Object props) repo
         (CachedRepo_value {| issues := l; last_updated := now |})
       = Ok (JSON.Object props')
    /\ CacheService.loadCache fs' = Ok (JSON.Object props').
Proof.
  unfold CacheService.storeIssues.
  destruct (CacheService.loadCache fs) as [cache|] eqn:El; [|discriminate].
  pose proof (loadCache_well_formed _ _ El) as Hwf.
  destruct cache as [| | | | |props]; cbn [JSObject.set]; try discriminate.
  set (entry := CachedRepo_value _).
  assert (Hnew : JSON.well_formed (JSON.Object (JSON.define repo entry props))
                 = true).
  { apply well_formed_object_define; [apply well_formed_entry|exact Hwf]. }
  destruct (JSObject.own repo props) as [old|] eqn:Eo;
    [|destruct (String.eqb repo "__proto__") eqn:Ep];
    intros Hs; do 2 eexists; (split; [reflexivity|]);
    cbn [JSObject.set]; rewrite Eo, ?Ep; (split; [reflexivity|]);
    first [ exact (loadCache_after_save _ _ _ Hnew Hs)
          | exact (loadCache_after_save _ _ _ Hwf Hs) ].
Qed.

Lemma validateRepoFormat_not_proto (repo : string) :
  GitHubService.validateRepoFormat repo = true ->
  String.eqb repo "__proto__" = false.
Proof.
  destruct (String.eqb_spec repo "__proto__") as [->|]; [|reflexivity].
  discriminate.
Qed.



(** A store that succeeds, for an identifier other than [__proto__]:
    membership and lookup right after it. *)
Lemma store_then_cached (repo : string) (l : list GitHubIssue) (now : string)
      (fs fs' : Fs.state) :
  String.eqb repo "__proto__" = false ->
  CacheService.storeIssues repo l now fs = (Ok tt, fs') ->
  CacheService.hasRepo repo fs' = Ok true
  /\ CacheService.getIssues repo fs'
     = Ok (JSObject.Json
             (CachedRepo_value {| issues := l; last_updated := now |})).
Proof.
  intros Hproto Hstore.
  destruct (storeIssues_succeeds _ _ _ _ _ Hstore)
    as (props & props' & Hload & Hset & Hload').
  cbn [JSObject.set] in Hset. rewrite Hproto in Hset.
  assert (Hprops : props'
                   = JSON.define repo
                       (CachedRepo_value {| issues := l; last_updated := now |})
                       props).
  { destruct (JSObject.own repo props); now injection Hset as <-. }
  unfold CacheService.hasRepo, CacheService.getIssues. rewrite Hload'.
  cbn [bind JSObject.has_property JSObject.get].
  now rewrite Hprops, own_define_same.
Qed.

(** The identifier [__proto__] is the exception: the assignment reaches the
    prototype, nothing is stored, and the lookup finds [Object.prototype].
    The format check keeps it away from /scan. *)
Example store_proto :
  let fs := snd (CacheService.storeIssues "__proto__" [demo_issue 1 None]
                                          "2024-01-01" empty_disk) in
  CacheService.loadCache fs = Ok (JSON.Object [])
  /\ CacheService.hasRepo "__proto__" fs = Ok true
  /\ CacheService.getIssues "__proto__" fs = Ok (JSObject.Builtin "__proto__").
Proof. vm_compute. repeat split. Qed.

(** C7: when a scan, on a cache file that [loadCache] reads as an object,
    answers 200, its repository identifier has the documented format, the
    issues were fetched and stored, and right after it [hasRepo] answers
    true and [getIssues] returns the entry made of the fetched issues, in
    the order they were fetched, and of the time of the write. *)
Theorem scan_then_cached
        (fuel : nat) (host : GitHubService.Host) (now : string)
        (request : Server.ScanRequest) (fs fs' : Fs.state)
        (props : list (string * JSON.value))
        (response : Server.Response) (sent : list GitHubService.Request) :
  CacheService.loadCache fs = Ok (JSON.Object props) ->
  Server.scan fuel host now request fs = Some (response, fs', sent) ->
  Server.status response = 200 ->
  exists repo fetched,
    Server.scan_repo request = Some repo
    /\ GitHubService.validateRepoFormat repo = true
    /\ GitHubService.fetchAllIssues fuel host repo = Some (Ok fetched, sent)
    /\ Server.json response
       = Server.ScanResponse repo (List.length fetched) true
    /\ CacheService.hasRepo repo fs' = Ok true
    /\ CacheService.getIssues repo fs'
       = Ok (JSObject.Json
               (CachedRepo_value {| issues := fetched; last_updated := now |}))
    /\ Server.typed_issues
         (JSObject.member
            (JSObject.Json
               (CachedRepo_value {| issues := fetched; last_updated := now |}))
            "issues")
       = Some fetched.
Proof.
  intros _.
  unfold Server.scan. destruct request as [[repo|]]; cbn [Server.scan_repo];
    unfold Server.missing; cbn [LLMService.truthy_key LLMService.key_of negb];
    [|intros [= <- _ _]; discriminate].
  destruct (JS.truthy_string repo); cbn [negb];
    [|intros [= <- _ _]; discriminate].
  destruct (GitHubService.validateRepoFormat repo) eqn:Hvalid; cbn [negb];
    [|intros [= <- _ _]; discriminate].
  destruct (GitHubService.fetchAllIssues fuel host repo)
    as [[[fetched|message] sent']|] eqn:Hfetch;
    [|intros [= <- _ _]; discriminate|discriminate].
  destruct (CacheService.storeIssues repo fetched now fs)
    as [[[]|message] fs''] eqn:Hstore;
    [|intros [= <- _ _]; discriminate].
  intros [= <- <- <-] _.
  destruct (store_then_cached _ _ _ _ _
              (validateRepoFormat_not_proto _ Hvalid) Hstore) as [Hhas Hget].
  exists repo, fetched. repeat split; try reflexivity; try assumption.
  cbn. apply as_issues_value.
Qed.

(** A scan of the sample host on an empty disk. *)
Lemma scan_then_cached_witness :
  exists fs',
    option_map (fun out => fst (fst out))
               (Server.scan 4 demo_host "2024-01-01"
                            {| Server.scan_repo := Some "octo/demo" |}
                            empty_disk)
    = Some {| Server.status := 200;
              Server.json := Server.ScanResponse "octo/demo" 3 true |}
    /\ CacheService.hasRepo "octo/demo" fs' = Ok true
    /\ CacheService.getIssues "octo/demo" fs'
       = Ok (JSObject.Json
               (CachedRepo_value
                  {| issues := flat_map kept demo_pages;
                     last_updated := "2024-01-01" |})).
Proof.
  destruct (Server.scan 4 demo_host "2024-01-01"
                        {| Server.scan_repo := Some "octo/demo" |} empty_disk)
    as [[[response fs'] sent]|] eqn:E; [|vm_compute in E; discriminate].
  assert (Hr : response
               = {| Server.status := 200;
                    Server.json := Server.ScanResponse "octo/demo" 3 true |}).
  { vm_compute in E. now injection E as <- _ _. }
  destruct (scan_then_cached 4 demo_host "2024-01-01" _ empty_disk fs' []
                             response sent eq_refl E)
    as (repo & fetched & Hrepo & _ & Hfetch & _ & Hhas & Hget & _).
  - now rewrite Hr.
  - injection Hrepo as <-.
    assert (Hf : fetched = flat_map kept demo_pages).
    { vm_compute in Hfetch. now injection Hfetch as <- _. }
    exists fs'. rewrite <- Hf, Hr. auto.
Defined.

(** C8: a cache saved with success and loaded again is the cache that was
    saved: the same identifiers and, for each, the same issues in the same
    order and the same time stamp. *)
Theorem save_then_load (cache : Cache) (fs fs' : Fs.state) :
  JSON.distinct (map fst cache) = true ->
  CacheService.saveCache (Cache_value cache) fs = (Ok tt, fs') ->
  CacheService.loadCache fs' = Ok (Cache_value cache)
  /\ forall repo entry,
       In (repo, entry) cache ->
       CacheService.hasRepo repo fs' = Ok true
       /\ CacheService.getIssues repo fs'
          = Ok (JSObject.Json (CachedRepo_value entry))
       /\ Server.typed_issues
            (JSObject.member (JSObject.Json (CachedRepo_value entry)) "issues")
          = Some (issues entry)
       /\ JSObject.member (JSObject.Json (CachedRepo_value entry))
                          "last_updated"
          = JSObject.Json (JSON.Str (last_updated entry)).
Proof.
  intros Hkeys Hsave.
  pose proof (loadCache_after_save _ _ _ (well_formed_cache _ Hkeys) Hsave)
    as Hload.
  split; [exact Hload|].
  intros repo entry Hin.
  assert (Hown : JSObject.own repo
                   (map (fun kv => (fst kv, CachedRepo_value (snd kv))) cache)
                 = Some (CachedRepo_value entry)).
  { clear Hsave Hload. induction cache as [|[k e] cache IH]; [contradiction|].
    cbn in Hkeys. apply andb_true_iff in Hkeys as [Hk Hd].
    cbn [map fst snd JSObject.own].
    destruct Hin as [[= -> ->]|Hin].
    - now rewrite String.eqb_refl.
    - destruct (String.eqb_spec k repo) as [->|Hne]; [|now apply IH].
      exfalso. rewrite negb_true_iff in Hk.
      assert (Hex : existsb (String.eqb repo) (map fst cache) = true).
      { apply existsb_exists. exists repo. split.
        - apply in_map_iff. now exists (repo, entry).
        - apply String.eqb_refl. }
      congruence. }
  unfold CacheService.hasRepo, CacheService.getIssues. rewrite Hload.
  unfold Cache_value. cbn [bind JSObject.has_property JSObject.get].
  rewrite Hown. repeat split.
  cbn. apply as_issues_value.
Qed.

(** A cache of two repositories, one without issues. *)
Lemma save_then_load_witness :
  let cache :=
    [ ("octo/demo",
       {| issues := [demo_issue 1 (Some "first"); demo_issue 2 None];
          last_updated := "2024-01-01" |});
      ("a/b", {| issues := []; last_updated := "2024-01-02" |}) ] in
  CacheService.loadCache
    (snd (CacheService.saveCache (Cache_value cache) empty_disk))
  = Ok (Cache_value cache).
Proof.
  intros cache.
  apply (save_then_load cache empty_disk); reflexivity.
Defined.

(** C9: [loadCache] never throws: it returns the empty cache when there is
    no file, when reading the file throws and when [JSON.parse] throws on
    its text; [saveCache] throws, with a message of its own, when the write
    fails, and leaves the file as it was. *)
Theorem load_never_fails_save_does :
  (forall fs, exists cache, CacheService.loadCache fs = Ok cache)
  /\ (forall fs,
         Fs.existsSync fs = false ->
         CacheService.loadCache fs = Ok (JSON.Object []))
  /\ (forall fs message,
         Fs.existsSync fs = true ->
         Fs.readFileSync fs = Throw message ->
         CacheService.loadCache fs = Ok (JSON.Object []))
  /\ (forall fs data message,
         Fs.existsSync fs = true ->
         Fs.readFileSync fs = Ok data ->
         CacheService.JSON_parse data = Throw message ->
         CacheService.loadCache fs = Ok (JSON.Object []))
  /\ (forall cache fs,
         Fs.writable fs = false ->
         CacheService.saveCache cache fs
         = (Throw "Failed to save cache to file", fs)).
Proof.
  split; [|split; [|split; [|split]]].
  - intros fs. destruct (loadCache_returns fs) as (cache & H & _). eauto.
  - intros fs H. unfold CacheService.loadCache. now rewrite H.
  - intros fs message He Hr. unfold CacheService.loadCache.
    now rewrite He, Hr.
  - intros fs data message He Hr Hp. unfold CacheService.loadCache.
    rewrite He, Hr. cbn [bind]. now rewrite Hp.
  - intros cache fs Hw. now rewrite saveCache_outcome, Hw.
Qed.

(** No file, an unreadable file, a malformed text, a failing write. *)
Lemma load_never_fails_save_does_witness :
  CacheService.loadCache empty_disk = Ok (JSON.Object [])
  /\ CacheService.loadCache
       {| Fs.cache_file := Fs.Unreadable; Fs.writable := true |}
     = Ok (JSON.Object [])
  /\ CacheService.loadCache
       {| Fs.cache_file := Fs.Contents "{ oops"; Fs.writable := true |}
     = Ok (JSON.Object [])
  /\ fst (CacheService.saveCache
            (JSON.Object [])
            {| Fs.cache_file := Fs.Missing; Fs.writable := false |})
     = Throw "Failed to save cache to file".
Proof.
  destruct load_never_fails_save_does as (_ & Hmissing & Hread & Hparse & Hsave).
  split; [apply Hmissing; reflexivity|].
  split; [apply (Hread _ "EACCES: permission denied"); reflexivity|].
  split; [apply (Hparse _ "{ oops" "SyntaxError"); reflexivity|].
  rewrite Hsave; reflexivity.
Defined.

(** ** Membership and lookup *)



Lemma loadCache_permission (fs : Fs.state) (w : bool) :
  CacheService.loadCache
    {| Fs.cache_file := Fs.cache_file fs; Fs.writable := w |}
  = CacheService.loadCache fs.
Proof. reflexivity. Qed.



(** ** /analyze on an empty entry *)

(** C2: an analyze request with a repository and a prompt, for a repository
    whose cached entry has an empty list of issues, is answered 200 with the
    fixed sentence, and no call is made to a provider. *)
Theorem analyze_empty_entry
        (llmService : LLMService.service) (api : LLMService.Providers)
        (request : Server.AnalyzeRequest) (fs : Fs.state)
        (repo prompt : string)
        (props entry : list (string * JSON.value)) :
  Server.analyze_repo request = Some repo ->
  repo <> "" ->
  Server.analyze_prompt request = Some prompt ->
  prompt <> "" ->
  CacheService.loadCache fs = Ok (JSON.Object props) ->
  JSObject.own repo props = Some (JSON.Object entry) ->
  JSObject.own "issues" entry = Some (JSON.Array []) ->
  Server.analyze llmService api request fs
  = Some ({| Server.status := 200;
             Server.json :=
               Server.AnalyzeResponse
                 "No issues found in the cache for this repository. The repository may not have any open issues." |},
          []).
Proof.
  intros Hrepo Hr Hprompt Hp Hload Hown Hissues.
  unfold Server.analyze, Server.missing. rewrite Hrepo, Hprompt.
  cbn [LLMService.truthy_key LLMService.key_of].
  assert (Tr : JS.truthy_string repo = true) by (now destruct repo).
  assert (Tp : JS.truthy_string prompt = true) by (now destruct prompt).
  rewrite Tr, Tp. cbn [negb orb].
  unfold CacheService.hasRepo, CacheService.getIssues. rewrite Hload.
  cbn [bind JSObject.has_property JSObject.get]. rewrite Hown.
  cbn [JSObject.or_null JSObject.truthy JSObject.truthy_json negb
       JSObject.member].
  rewrite Hissues. reflexivity.
Qed.

(** A repository stored with no issues. *)
Lemma analyze_empty_entry_witness :
  let fs := snd (CacheService.storeIssues "a/b" [] "2024-01-01" empty_disk) in
  Server.analyze demo_llm demo_api
                 {| Server.analyze_repo := Some "a/b";
                    Server.analyze_prompt := Some "list themes" |} fs
  = Some ({| Server.status := 200;
             Server.json := Server.AnalyzeResponse Server.no_issues_sentence |},
          []).
Proof.
  intros fs.
  apply (analyze_empty_entry
           demo_llm demo_api _ fs "a/b" "list themes"
           [("a/b", CachedRepo_value {| issues := []; last_updated := "2024-01-01" |})]
           [("issues", JSON.Array []); ("last_updated", JSON.Str "2024-01-01")]);
    try reflexivity; discriminate.
Defined.

(** The guard is in the handler: [analyzeIssues] itself calls the provider
    whatever the issues, an empty list included. *)
Remark analyzeIssues_calls_provider (repo userPrompt : string) :
  snd (LLMService.analyzeIssues demo_llm demo_api repo [] userPrompt)
  = [LLMService.AnthropicCall
       "key"
       {| LLMService.model := "claude-sonnet-4-20250514";
          LLMService.max_tokens := 4000;
          LLMService.system := LLMService.systemPrompt;
          LLMService.user := LLMService.fullPrompt repo [] userPrompt |}].
Proof. reflexivity. Qed.

(** * Further properties *)

(** ** The fetcher: failures and endless listings *)

Lemma fetch_loop_fails (host : GitHubService.Host) (repo : string)
      (pages : list (list GitHubService.Item))
      (error : GitHubService.Failure) :
  forall fuel page collected sent,
    fails_after host repo page pages error ->
    List.length pages < fuel ->
    GitHubService.fetch_loop fuel host repo page 100 collected sent
    = Some (Throw (GitHubService.rethrow error),
            (sent ++ map (fun n => GitHubService.request_page repo n 100)
                         (seq page (S (List.length pages))))%list).
Proof.
  induction pages as [|data pages IH]; intros fuel page collected sent Hs Hf;
    (destruct fuel as [|fuel]; [simpl in Hf; lia|]); simpl in Hs |- *.
  - now rewrite Hs.
  - destruct Hs as (Hd & Hne & Hs). rewrite Hd.
    destruct data as [|item data]; [congruence|].
    cbn [List.length Nat.eqb].
    rewrite (IH fuel (page + 1)) by (trivial; simpl in Hf; lia).
    rewrite <- !List.app_assoc.
    replace (page + 1) with (S page) by lia. reflexivity.
Qed.

(** X1: when the host fails on a page, after any number of non-empty pages,
    the fetch throws and the issues read so far are lost.  The message of an
    Axios error is [GitHub API error: <status> - <message>], with the text
    [undefined] for the status when there is no response and the message of
    the response body when it has a non-empty one, the message of the error
    otherwise; any other error is thrown again as it is. *)
Theorem fetch_fails_on_error
        (host : GitHubService.Host) (repo : string)
        (pages : list (list GitHubService.Item))
        (error : GitHubService.Failure) (fuel : nat) :
  fails_after host repo 1 pages error ->
  List.length pages < fuel ->
  GitHubService.fetchAllIssues fuel host repo
  = Some (Throw
            match error with
            | GitHubService.AxiosError None message =>
                "GitHub API error: undefined - " ++ message
            | GitHubService.AxiosError (Some (status, None)) message =>
                "GitHub API error: " ++ JS.number_to_string status
                ++ " - " ++ message
            | GitHubService.AxiosError (Some (status, Some text)) message =>
                "GitHub API error: " ++ JS.number_to_string status
                ++ " - " ++ match text with
                            | EmptyString => message
                            | String _ _ => text
                            end
            | GitHubService.OtherError message => message
            end,
          map (fun n => GitHubService.request_page repo n 100)
              (seq 1 (S (List.length pages)))).
Proof.
  intros Hs Hf. unfold GitHubService.fetchAllIssues.
  rewrite (fetch_loop_fails host repo pages error fuel 1 [] [] Hs Hf).
  destruct error as [[[status [[|c text]|]]|] message|message]; reflexivity.
Qed.

(** The host answers one page of issues, then 403. *)
Lemma fetch_fails_on_error_witness :
  GitHubService.fetchAllIssues 2 limited_host "octo/demo"
  = Some (Throw "GitHub API error: 403 - rate limit",
          map (fun n => GitHubService.request_page "octo/demo" n 100) [1; 2]).
Proof.
  rewrite (fetch_fails_on_error
             limited_host "octo/demo" [[demo_item 1 (Some "first") false]]
             (GitHubService.AxiosError (Some (403%Z, Some "rate limit"))
                                       "Request failed") 2).
  - reflexivity.
  - simpl. repeat split; discriminate.
  - simpl. lia.
Defined.

Lemma fetch_loop_endless (host : GitHubService.Host) (repo : string) :
  (forall page, 1 <= page ->
                exists data,
                  host (GitHubService.request_page repo page 100) = inr data
                  /\ data <> []) ->
  forall fuel page collected sent,
    1 <= page ->
    GitHubService.fetch_loop fuel host repo page 100 collected sent = None.
Proof.
  intros Hhost. induction fuel as [|fuel IH]; intros page collected sent Hp;
    [reflexivity|].
  cbn [GitHubService.fetch_loop].
  destruct (Hhost page Hp) as (data & -> & Hne).
  destruct data as [|item data]; [congruence|].
  cbn [List.length Nat.eqb]. apply IH. lia.
Qed.

(** X2: the loop has no bound of its own: against a host that answers
    every page with a non-empty list, pull requests or not, the fetch goes
    on for ever, whatever the number of iterations it is given. *)
Theorem fetch_never_ends (host : GitHubService.Host) (repo : string) :
  (forall page, 1 <= page ->
                exists data,
                  host (GitHubService.request_page repo page 100) = inr data
                  /\ data <> []) ->
  forall fuel, GitHubService.fetchAllIssues fuel host repo = None.
Proof.
  intros Hhost fuel. unfold GitHubService.fetchAllIssues.
  apply (fetch_loop_endless host repo Hhost). lia.
Qed.

(** A host with a pull request on every page. *)
Lemma fetch_never_ends_witness :
  GitHubService.fetchAllIssues 1000 endless_host "octo/demo" = None.
Proof.
  apply fetch_never_ends. intros page _.
  exists [demo_item 1 None true]. split; [reflexivity|discriminate].
Defined.

(** ** Stores, in general *)

Lemma set_assigned (repo : string) (entry : JSON.value) props :
  JSObject.set (JSON.Object props) repo entry
  = Ok (JSON.Object (assigned repo entry props)).
Proof.
  unfold assigned. cbn [JSObject.set].
  destruct (JSObject.own repo props); [reflexivity|].
  now destruct (String.eqb repo "__proto__").
Qed.

Lemma well_formed_assigned (repo : string) (entry : JSON.value) props :
  JSON.well_formed entry = true ->
  JSON.well_formed (JSON.Object props) = true ->
  JSON.well_formed (JSON.Object (assigned repo entry props)) = true.
Proof.
  intros He Hp. unfold assigned.
  destruct (JSObject.own repo props);
    [|destruct (String.eqb repo "__proto__")];
    auto using well_formed_object_define.
Qed.

(** What a store does to the file, by what [loadCache] returned. *)
Lemma storeIssues_object (repo : string) (l : list GitHubIssue) (now : string)
      (fs : Fs.state) props :
  CacheService.loadCache fs = Ok (JSON.Object props) ->
  CacheService.storeIssues repo l now fs
  = if Fs.writable fs
    then (Ok tt,
          written (JSON.Object
                     (assigned repo
                        (CachedRepo_value
                           {| issues := l; last_updated := now |})
                        props)))
    else (Throw "Failed to save cache to file", fs).
Proof.
  intros Hload. unfold CacheService.storeIssues. rewrite Hload, set_assigned.
  apply saveCache_outcome.
Qed.

Lemma storeIssues_other (repo : string) (l : list GitHubIssue) (now : string)
      (fs : Fs.state) (cache : JSON.value) :
  CacheService.loadCache fs = Ok cache ->
  (forall props, cache <> JSON.Object props) ->
  CacheService.storeIssues repo l now fs = (Throw JSObject.type_error, fs).
Proof.
  intros Hload Hno. unfold CacheService.storeIssues. rewrite Hload.
  destruct cache; try reflexivity. now contradiction (Hno properties).
Qed.

Lemma loadCache_written (cache : JSON.value) :
  JSON.well_formed cache = true ->
  CacheService.loadCache (written cache) = Ok cache.
Proof.
  intros Hwf. unfold CacheService.loadCache, CacheService.JSON_parse, written.
  cbn. now rewrite parse_stringify.
Qed.

Lemma storeIssues_throw_unchanged (repo : string) (l : list GitHubIssue)
      (now message : string) (fs fs' : Fs.state) :
  CacheService.storeIssues repo l now fs = (Throw message, fs') -> fs' = fs.
Proof.
  destruct (loadCache_returns fs) as (cache & Hload & _).
  destruct cache as [| | | | |props];
    try (rewrite (storeIssues_other _ _ _ _ _ Hload) by discriminate;
         now intros [= _ <-]).
  rewrite (storeIssues_object _ _ _ _ _ Hload).
  destruct (Fs.writable fs); [discriminate|now intros [= _ <-]].
Qed.

Lemma own_assigned_other (repo other : string) (entry : JSON.value) props :
  other <> repo ->
  JSObject.own other (assigned repo entry props) = JSObject.own other props.
Proof.
  intros Hne. unfold assigned.
  destruct (JSObject.own repo props);
    [|destruct (String.eqb repo "__proto__")];
    auto using own_define_other.
Qed.

Lemma own_none_fresh (key : string) props :
  JSObject.own key props = None ->
  Forall (fun a => String.eqb a key = false) (map fst props).
Proof.
  induction props as [|[k w] props IH]; cbn; [constructor|].
  destruct (String.eqb k key) eqn:E; [discriminate|].
  intros H. constructor; auto.
Qed.

Lemma define_define (key : string) (v w : JSON.value) props :
  JSON.define key w (JSON.define key v props) = JSON.define key w props.
Proof.
  induction props as [|[k u] props IH]; cbn.
  - now rewrite String.eqb_refl.
  - destruct (String.eqb k key) eqn:E; cbn; rewrite E; [reflexivity|].
    now rewrite IH.
Qed.

Lemma assigned_assigned (repo : string) (v w : JSON.value) props :
  assigned repo w (assigned repo v props) = assigned repo w props.
Proof.
  unfold assigned at 2 3.
  destruct (JSObject.own repo props) as [old|] eqn:Eo.
  - unfold assigned. now rewrite own_define_same, define_define.
  - destruct (String.eqb repo "__proto__") eqn:Ep.
    + unfold assigned. now rewrite Eo, Ep.
    + unfold assigned. now rewrite own_define_same, define_define.
Qed.

(** X3: a store that succeeds, on a cache file that [loadCache] reads as
    an object, leaves membership and lookup of every other identifier as
    they were. *)
Theorem store_keeps_other_entries
        (repo other : string) (l : list GitHubIssue) (now : string)
        (fs fs' : Fs.state) (props : list (string * JSON.value)) :
  CacheService.loadCache fs = Ok (JSON.Object props) ->
  CacheService.storeIssues repo l now fs = (Ok tt, fs') ->
  other <> repo ->
  CacheService.hasRepo other fs' = CacheService.hasRepo other fs
  /\ CacheService.getIssues other fs' = CacheService.getIssues other fs.
Proof.
  intros Hload Hstore Hne.
  pose proof (loadCache_well_formed _ _ Hload) as Hwf.
  rewrite (storeIssues_object _ _ _ _ _ Hload) in Hstore.
  destruct (Fs.writable fs); [|discriminate].
  injection Hstore as <-.
  unfold CacheService.hasRepo, CacheService.getIssues.
  rewrite Hload, loadCache_written
    by (apply well_formed_assigned; [apply well_formed_entry|exact Hwf]).
  cbn [bind JSObject.has_property JSObject.get].
  now rewrite own_assigned_other.
Qed.

(** A second repository is stored beside the first. *)
Lemma store_keeps_other_entries_witness :
  CacheService.getIssues
    "octo/demo"
    (snd (CacheService.storeIssues "a/b" [demo_issue 9 None] "2024-03-03"
                                   demo_disk))
  = CacheService.getIssues "octo/demo" demo_disk.
Proof.
  apply (store_keeps_other_entries
           "a/b" "octo/demo" [demo_issue 9 None] "2024-03-03" demo_disk _
           [("octo/demo",
             CachedRepo_value
               {| issues := [demo_issue 1 (Some "first"); demo_issue 2 None];
                  last_updated := "2024-01-01" |})]).
  - vm_compute. reflexivity.
  - reflexivity.
  - discriminate.
Defined.

(** X4: on a cache file that is missing or can be read, the first store of
    an identifier that passes the format check adds its entry after the
    entries the cache has and changes none of them. *)
Theorem store_adds_entry
        (repo : string) (l : list GitHubIssue) (now : string)
        (fs : Fs.state) (props : list (string * JSON.value)) :
  CacheService.loadCache fs = Ok (JSON.Object props) ->
  Fs.cache_file fs <> Fs.Unreadable ->
  JSObject.own repo props = None ->
  GitHubService.validateRepoFormat repo = true ->
  Fs.writable fs = true ->
  exists fs',
    CacheService.storeIssues repo l now fs = (Ok tt, fs')
    /\ CacheService.loadCache fs'
       = Ok (JSON.Object
               (props
                ++ [(repo,
                     CachedRepo_value
                       {| issues := l; last_updated := now |})])%list).
Proof.
  intros Hload _ Hown Hvalid Hw.
  pose proof (loadCache_well_formed _ _ Hload) as Hwf.
  rewrite (storeIssues_object _ _ _ _ _ Hload), Hw.
  eexists. split; [reflexivity|].
  rewrite loadCache_written
    by (apply well_formed_assigned; [apply well_formed_entry|exact Hwf]).
  unfold assigned. rewrite Hown, (validateRepoFormat_not_proto _ Hvalid).
  now rewrite (define_fresh _ _ _ (own_none_fresh _ _ Hown)).
Qed.

(** A second repository goes after the first. *)
Lemma store_adds_entry_witness :
  CacheService.loadCache
    (snd (CacheService.storeIssues "a/b" [] "2024-03-03" demo_disk))
  = Ok (JSON.Object
          [("octo/demo",
            CachedRepo_value
              {| issues := [demo_issue 1 (Some "first"); demo_issue 2 None];
                 last_updated := "2024-01-01" |});
           ("a/b",
            CachedRepo_value {| issues := []; last_updated := "2024-03-03" |})]).
Proof.
  destruct (store_adds_entry
              "a/b" [] "2024-03-03" demo_disk
              [("octo/demo",
                CachedRepo_value
                  {| issues := [demo_issue 1 (Some "first"); demo_issue 2 None];
                     last_updated := "2024-01-01" |})])
    as (fs' & Hstore & Hload).
  - vm_compute. reflexivity.
  - discriminate.
  - reflexivity.
  - reflexivity.
  - reflexivity.
  - rewrite Hstore. exact Hload.
Defined.

(** X5: of two stores in a row for one identifier only the second shows:
    the file is the one the second store alone would have left. *)
Theorem store_twice
        (repo : string) (l1 l2 : list GitHubIssue) (now1 now2 : string)
        (fs : Fs.state) :
  snd (CacheService.storeIssues
         repo l2 now2 (snd (CacheService.storeIssues repo l1 now1 fs)))
  = snd (CacheService.storeIssues repo l2 now2 fs).
Proof.
  destruct (loadCache_returns fs) as (cache & Hload & Hwf).
  destruct cache as [| | | | |props];
    try (rewrite (storeIssues_other repo l1 _ _ _ Hload) by discriminate;
         reflexivity).
  rewrite (storeIssues_object repo l1 _ _ _ Hload).
  rewrite (storeIssues_object repo l2 _ _ _ Hload).
  destruct (Fs.writable fs) eqn:Hw; cbn [snd].
  - set (e1 := CachedRepo_value {| issues := l1; last_updated := now1 |}).
    assert (Hload1 : CacheService.loadCache
                       (written (JSON.Object (assigned repo e1 props)))
                     = Ok (JSON.Object (assigned repo e1 props))).
    { apply loadCache_written, well_formed_assigned;
        [apply well_formed_entry|exact Hwf]. }
    rewrite (storeIssues_object repo l2 _ _ _ Hload1). cbn [written Fs.writable snd].
    now rewrite assigned_assigned.
  - rewrite (storeIssues_object repo l2 _ _ _ Hload), Hw. reflexivity.
Qed.

(** X6: a cache file whose text [JSON.parse] rejects is taken for an empty
    cache and overwritten: after a store that succeeds, for an identifier
    that passes the format check, the cache holds the stored entry and
    nothing else. *)
Theorem store_over_damaged_file
        (repo : string) (l : list GitHubIssue) (now : string)
        (fs : Fs.state) (data message : string) :
  Fs.cache_file fs = Fs.Contents data ->
  CacheService.JSON_parse data = Throw message ->
  GitHubService.validateRepoFormat repo = true ->
  Fs.writable fs = true ->
  exists fs',
    CacheService.storeIssues repo l now fs = (Ok tt, fs')
    /\ CacheService.loadCache fs'
       = Ok (JSON.Object
               [(repo,
                 CachedRepo_value {| issues := l; last_updated := now |})]).
Proof.
  intros Hfile Hparse Hvalid Hw.
  assert (Hload : CacheService.loadCache fs = Ok (JSON.Object [])).
  { unfold CacheService.loadCache, Fs.existsSync, Fs.readFileSync.
    rewrite Hfile. cbn. now rewrite Hparse. }
  rewrite (storeIssues_object _ _ _ _ _ Hload), Hw.
  eexists. split; [reflexivity|].
  rewrite loadCache_written
    by (apply well_formed_assigned; [apply well_formed_entry|reflexivity]).
  unfold assigned. cbn [JSObject.own JSON.define].
  now rewrite (validateRepoFormat_not_proto _ Hvalid).
Qed.

(** A file cut short in the middle of a document. *)
Lemma store_over_damaged_file_witness :
  CacheService.loadCache
    (snd (CacheService.storeIssues
            "a/b" [] "2024-03-03"
            {| Fs.cache_file := Fs.Contents "{ oops"; Fs.writable := true |}))
  = Ok (JSON.Object
          [("a/b",
            CachedRepo_value {| issues := []; last_updated := "2024-03-03" |})]).
Proof.
  destruct (store_over_damaged_file
              "a/b" [] "2024-03-03"
              {| Fs.cache_file := Fs.Contents "{ oops"; Fs.writable := true |}
              "{ oops" "SyntaxError")
    as (fs' & Hstore & Hload).
  - reflexivity.
  - reflexivity.
  - reflexivity.
  - reflexivity.
  - rewrite Hstore. exact Hload.
Defined.

(** ** /scan *)

Lemma validateRepoFormat_truthy (repo : string) :
  GitHubService.validateRepoFormat repo = true -> JS.truthy_string repo = true.
Proof. now destruct repo. Qed.

Lemma assigned_valid (repo : string) (entry : JSON.value) props :
  GitHubService.validateRepoFormat repo = true ->
  assigned repo entry props = JSON.define repo entry props.
Proof.
  intros Hvalid. unfold assigned.
  rewrite (validateRepoFormat_not_proto _ Hvalid).
  now destruct (JSObject.own repo props).
Qed.

Lemma fetchAllIssues_serves (host : GitHubService.Host) (repo : string)
      (pages : list (list GitHubService.Item)) (fuel : nat) :
  serves host repo 1 pages ->
  List.length pages < fuel ->
  GitHubService.fetchAllIssues fuel host repo
  = Some (Ok (kept (List.concat pages)),
          map (fun n => GitHubService.request_page repo n 100)
              (seq 1 (S (List.length pages)))).
Proof.
  intros Hs Hf. unfold GitHubService.fetchAllIssues.
  rewrite (fetch_loop_serves host repo pages fuel 1 [] [] Hs Hf).
  now rewrite kept_flat_map.
Qed.

(** X7: a scan whose body has no [repo], or a falsy one, or a string that
    does not have exactly one slash, or an array without the string of one
    slash, is answered 400; a scan whose [repo] is a truthy number, boolean
    or object, or an array with that string, makes the format check throw
    and is answered 500 with [cached_successfully: false].  Either way no
    request goes to the host and the cache file is not touched. *)
Theorem scan_rejected
        (fuel : nat) (host : GitHubService.Host) (now : string)
        (body : list (string * JSON.value)) (fs : Fs.state) :
  match JSObject.own "repo" body with
  | Some (JSON.Str repo) => JS.count "/" repo <> 1
  | _ => True
  end ->
  exists message,
    Server.scan_body fuel host now body fs
    = Some (if validation_throws (JSObject.own "repo" body)
            then {| Server.status := 500;
                    Server.json := Server.ErrorResponse message (Some false) |}
            else {| Server.status := 400;
                    Server.json := Server.ErrorResponse message None |},
            fs, []).
Proof.
  unfold Server.scan_body.
  destruct (JSObject.own "repo" body) as [[| [] | n | repo | elements | props]|];
    cbn [validation_throws Server.validate_untyped JSObject.truthy_json negb];
    try (intros _; eexists; reflexivity).
  - intros _. destruct (n =? 0)%Z; cbn [negb]; eexists; reflexivity.
  - intros Hcount. unfold Server.scan, Server.missing.
    cbn [Server.scan_repo LLMService.truthy_key LLMService.key_of].
    destruct (JS.truthy_string repo); cbn [negb]; [|eauto].
    destruct (GitHubService.validateRepoFormat repo) eqn:Hvalid; cbn [negb];
      [|eauto].
    apply validateRepoFormat_count in Hvalid. contradiction.
  - intros _. destruct (existsb Server.is_slash elements); eexists; reflexivity.
Qed.

(** Two slashes, and a number. *)
Lemma scan_rejected_witness :
  Server.scan_body 4 demo_host "2024-01-01"
                   [("repo", JSON.Str "a/b/c")] demo_disk
  = Some ({| Server.status := 400;
             Server.json :=
               Server.ErrorResponse
                 "Invalid repo format. Expected 'owner/repository-name'"
                 None |}, demo_disk, [])
  /\ Server.scan_body 4 demo_host "2024-01-01"
                      [("repo", JSON.Number 123)] demo_disk
     = Some ({| Server.status := 500;
                Server.json :=
                  Server.ErrorResponse "repo.includes is not a function"
                                       (Some false) |}, demo_disk, []).
Proof.
  destruct (scan_rejected 4 demo_host "2024-01-01"
                          [("repo", JSON.Str "a/b/c")] demo_disk)
    as (message & H).
  - cbn. discriminate.
  - split; [|reflexivity].
    rewrite H. cbn [validation_throws JSObject.own String.eqb Ascii.eqb Bool.eqb].
    vm_compute in H. injection H as <-. reflexivity.
Defined.

(** X8: a scan of an identifier of the checked format, against a host that
    lists its pages and ends them with an empty one, on a cache file that
    holds an object and can be written, answers 200 with the number of
    elements that are not pull requests, and leaves the file with the new
    entry in place of, or after, the old ones. *)
Theorem scan_succeeds
        (fuel : nat) (host : GitHubService.Host) (now : string)
        (request : Server.ScanRequest) (fs : Fs.state) (repo : string)
        (pages : list (list GitHubService.Item))
        (props : list (string * JSON.value)) :
  Server.scan_repo request = Some repo ->
  GitHubService.validateRepoFormat repo = true ->
  serves host repo 1 pages ->
  List.length pages < fuel ->
  CacheService.loadCache fs = Ok (JSON.Object props) ->
  Fs.writable fs = true ->
  Server.scan fuel host now request fs
  = Some ({| Server.status := 200;
             Server.json :=
               Server.ScanResponse
                 repo
                 (List.length
                    (filter (fun item => negb (GitHubService.pull_request item))
                            (List.concat pages)))
                 true |},
          {| Fs.cache_file :=
               Fs.Contents
                 (JSON.stringify
                    (JSON.Object
                       (JSON.define
                          repo
                          (CachedRepo_value
                             {| issues := kept (List.concat pages);
                                last_updated := now |})
                          props)));
             Fs.writable := true |},
          map (fun n => GitHubService.request_page repo n 100)
              (seq 1 (S (List.length pages)))).
Proof.
  intros Hrepo Hvalid Hs Hf Hload Hw.
  unfold Server.scan, Server.missing. rewrite Hrepo.
  cbn [LLMService.truthy_key LLMService.key_of].
  rewrite (validateRepoFormat_truthy _ Hvalid), Hvalid. cbn [negb].
  rewrite (fetchAllIssues_serves _ _ _ _ Hs Hf).
  rewrite (storeIssues_object _ _ _ _ _ Hload), Hw.
  rewrite (assigned_valid _ _ _ Hvalid).
  unfold kept at 1. now rewrite length_map.
Qed.

(** The sample host on an empty disk: three issues out of five elements. *)
Lemma scan_succeeds_witness :
  option_map (fun out => fst (fst out))
             (Server.scan 4 demo_host "2024-01-01"
                          {| Server.scan_repo := Some "octo/demo" |} empty_disk)
  = Some {| Server.status := 200;
            Server.json := Server.ScanResponse "octo/demo" 3 true |}.
Proof.
  rewrite (scan_succeeds 4 demo_host "2024-01-01" _ empty_disk "octo/demo"
                         demo_pages []).
  - reflexivity.
  - reflexivity.
  - reflexivity.
  - simpl. repeat split; discriminate.
  - simpl. lia.
  - reflexivity.
  - reflexivity.
Defined.

(** X9: a scan that does not answer 200 leaves the cache file as it was. *)
Theorem scan_failure_keeps_file
        (fuel : nat) (host : GitHubService.Host) (now : string)
        (request : Server.ScanRequest) (fs fs' : Fs.state)
        (response : Server.Response) (sent : list GitHubService.Request) :
  Server.scan fuel host now request fs = Some (response, fs', sent) ->
  Server.status response <> 200 ->
  fs' = fs.
Proof.
  unfold Server.scan.
  destruct (Server.missing (Server.scan_repo request));
    [now intros [= _ <- _]|].
  destruct (negb (GitHubService.validateRepoFormat _));
    [now intros [= _ <- _]|].
  destruct (GitHubService.fetchAllIssues _ _ _)
    as [[[fetched|message] sent']|]; [|now intros [= _ <- _]|discriminate].
  destruct (CacheService.storeIssues _ fetched now fs)
    as [[[]|message] fs''] eqn:Hstore.
  - intros [= <- _ _] H. now contradiction H.
  - intros [= _ <- _] _. exact (storeIssues_throw_unchanged _ _ _ _ _ _ Hstore).
Qed.

(** The host refuses the second page: nothing is written. *)
Lemma scan_failure_keeps_file_witness :
  option_map (fun out => snd (fst out))
             (Server.scan 4 limited_host "2024-01-01"
                          {| Server.scan_repo := Some "octo/demo" |} demo_disk)
  = Some demo_disk.
Proof.
  destruct (Server.scan 4 limited_host "2024-01-01"
                        {| Server.scan_repo := Some "octo/demo" |} demo_disk)
    as [[[response fs'] sent]|] eqn:E; [|vm_compute in E; discriminate].
  cbn [option_map fst snd]. f_equal.
  apply (scan_failure_keeps_file _ _ _ _ _ _ _ _ E).
  vm_compute in E. injection E as <- _ _. discriminate.
Defined.

(** X10: when the host fails, the scan answers 500 with the message of the
    fetcher and [cached_successfully: false]; when the fetch succeeds and
    the write fails, it answers 500 with the message of [saveCache]. *)
Theorem scan_reports_failure
        (fuel : nat) (host : GitHubService.Host) (now : string)
        (request : Server.ScanRequest) (fs : Fs.state) (repo : string)
        (pages : list (list GitHubService.Item))
        (props : list (string * JSON.value)) :
  Server.scan_repo request = Some repo ->
  GitHubService.validateRepoFormat repo = true ->
  List.length pages < fuel ->
  (forall error,
      fails_after host repo 1 pages error ->
      Server.scan fuel host now request fs
      = Some ({| Server.status := 500;
                 Server.json :=
                   Server.ErrorResponse (GitHubService.rethrow error)
                                        (Some false) |},
              fs,
              map (fun n => GitHubService.request_page repo n 100)
                  (seq 1 (S (List.length pages)))))
  /\ (serves host repo 1 pages ->
      CacheService.loadCache fs = Ok (JSON.Object props) ->
      Fs.writable fs = false ->
      Server.scan fuel host now request fs
      = Some ({| Server.status := 500;
                 Server.json :=
                   Server.ErrorResponse "Failed to save cache to file"
                                        (Some false) |},
              fs,
              map (fun n => GitHubService.request_page repo n 100)
                  (seq 1 (S (List.length pages))))).
Proof.
  intros Hrepo Hvalid Hf.
  unfold Server.scan, Server.missing. rewrite Hrepo.
  cbn [LLMService.truthy_key LLMService.key_of].
  rewrite (validateRepoFormat_truthy _ Hvalid), Hvalid. cbn [negb].
  split.
  - intros error Hs. unfold GitHubService.fetchAllIssues.
    now rewrite (fetch_loop_fails host repo pages error fuel 1 [] [] Hs Hf).
  - intros Hs Hload Hw.
    rewrite (fetchAllIssues_serves _ _ _ _ Hs Hf).
    now rewrite (storeIssues_object _ _ _ _ _ Hload), Hw.
Qed.

(** The host refuses the second page. *)
Lemma scan_reports_failure_witness :
  option_map (fun out => fst (fst out))
             (Server.scan 4 limited_host "2024-01-01"
                          {| Server.scan_repo := Some "octo/demo" |} demo_disk)
  = Some {| Server.status := 500;
            Server.json :=
              Server.ErrorResponse "GitHub API error: 403 - rate limit"
                                   (Some false) |}.
Proof.
  destruct (scan_reports_failure
              4 limited_host "2024-01-01"
              {| Server.scan_repo := Some "octo/demo" |} demo_disk "octo/demo"
              [[demo_item 1 (Some "first") false]] [])
    as [Hfetch _]; [reflexivity|reflexivity|simpl; lia|].
  rewrite (Hfetch (GitHubService.AxiosError (Some (403%Z, Some "rate limit"))
                                            "Request failed")).
  - reflexivity.
  - simpl. repeat split; discriminate.
Defined.

(** ** /analyze *)

(** The handler, once membership and lookup have found a typed entry. *)
Lemma analyze_entry
      (llmService : LLMService.service) (api : LLMService.Providers)
      (request : Server.AnalyzeRequest) (fs : Fs.state)
      (repo prompt : string) (entry : CachedRepo) :
  Server.analyze_repo request = Some repo ->
  repo <> "" ->
  Server.analyze_prompt request = Some prompt ->
  prompt <> "" ->
  CacheService.hasRepo repo fs = Ok true ->
  CacheService.getIssues repo fs = Ok (JSObject.Json (CachedRepo_value entry)) ->
  Server.analyze llmService api request fs
  = Some (analysis_of llmService api repo (issues entry) prompt).
Proof.
  intros Hrepo Hr Hprompt Hp Hhas Hget.
  unfold Server.analyze, Server.missing. rewrite Hrepo, Hprompt.
  cbn [LLMService.truthy_key LLMService.key_of].
  assert (Tr : JS.truthy_string repo = true) by (now destruct repo).
  assert (Tp : JS.truthy_string prompt = true) by (now destruct prompt).
  rewrite Tr, Tp, Hhas, Hget. cbn [negb orb].
  unfold CachedRepo_value.
  cbn [JSObject.truthy JSObject.truthy_json negb JSObject.member JSObject.own
       String.eqb Ascii.eqb Bool.eqb].
  destruct (issues entry) as [|issue l] eqn:El; [reflexivity|].
  cbn [map Server.length_is_zero orb Server.typed_issues].
  rewrite <- map_cons, as_issues_value. cbn [analysis_of].
  now destruct (LLMService.analyzeIssues llmService api repo (issue :: l) prompt)
    as [[analysis|message] calls].
Qed.

Lemma inherited_no_slash (key : string) :
  JSObject.inherited key = true -> JS.includes key "/" = false.
Proof.
  unfold JSObject.inherited, JSObject.Object_prototype. cbn [existsb].
  repeat match goal with
         | |- context [String.eqb key ?name] =>
             destruct (String.eqb_spec key name) as [->|_]; [reflexivity|]
         end.
  discriminate.
Qed.

(** X11: an identifier that passes the format check is none of the names a
    plain object inherits, [__proto__] included; so for it the membership
    test of the cache is true exactly when the cache object has an entry of
    its own. *)
Theorem valid_identifier_is_no_inherited_name (repo : string) :
  GitHubService.validateRepoFormat repo = true ->
  JSObject.inherited repo = false
  /\ repo <> "__proto__"
  /\ forall props,
       JSObject.has_property repo (JSON.Object props)
       = Ok match JSObject.own repo props with
            | Some _ => true
            | None => false
            end.
Proof.
  intros Hvalid.
  assert (Hinh : JSObject.inherited repo = false).
  { destruct (JSObject.inherited repo) eqn:E; [|reflexivity].
    apply inherited_no_slash in E.
    unfold GitHubService.validateRepoFormat in Hvalid.
    rewrite E in Hvalid. discriminate. }
  split; [exact Hinh|]. split.
  - apply String.eqb_neq. now apply validateRepoFormat_not_proto.
  - intros props. cbn [JSObject.has_property]. rewrite Hinh.
    now destruct (JSObject.own repo props).
Qed.

Lemma valid_identifier_is_no_inherited_name_witness :
  JSObject.inherited "octo/demo" = false
  /\ CacheService.hasRepo "never/scanned" demo_disk = Ok false.
Proof.
  destruct (valid_identifier_is_no_inherited_name "octo/demo") as (H & _);
    [reflexivity|].
  split; [exact H|reflexivity].
Defined.

(** X12: an analyze request for an identifier that has no entry in the
    cache and is no inherited name is answered 404, and no provider is
    called. *)
Theorem analyze_not_scanned
        (llmService : LLMService.service) (api : LLMService.Providers)
        (request : Server.AnalyzeRequest) (fs : Fs.state)
        (repo prompt : string) (props : list (string * JSON.value)) :
  Server.analyze_repo request = Some repo ->
  repo <> "" ->
  Server.analyze_prompt request = Some prompt ->
  prompt <> "" ->
  CacheService.loadCache fs = Ok (JSON.Object props) ->
  JSObject.own repo props = None ->
  JSObject.inherited repo = false ->
  Server.analyze llmService api request fs
  = Some ({| Server.status := 404;
             Server.json :=
               Server.ErrorResponse
                 ("Repository '" ++ repo
                  ++ "' not yet scanned. Please call /scan first.")
                 None |}, []).
Proof.
  intros Hrepo Hr Hprompt Hp Hload Hown Hinh.
  unfold Server.analyze, Server.missing. rewrite Hrepo, Hprompt.
  cbn [LLMService.truthy_key LLMService.key_of].
  assert (Tr : JS.truthy_string repo = true) by (now destruct repo).
  assert (Tp : JS.truthy_string prompt = true) by (now destruct prompt).
  rewrite Tr, Tp. cbn [negb orb].
  unfold CacheService.hasRepo. rewrite Hload.
  cbn [bind JSObject.has_property]. now rewrite Hown, Hinh.
Qed.

Lemma analyze_not_scanned_witness :
  Server.analyze demo_llm demo_api
                 {| Server.analyze_repo := Some "never/scanned";
                    Server.analyze_prompt := Some "x" |} demo_disk
  = Some ({| Server.status := 404;
             Server.json :=
               Server.ErrorResponse
                 "Repository 'never/scanned' not yet scanned. Please call /scan first."
                 None |}, []).
Proof.
  apply (analyze_not_scanned
           demo_llm demo_api _ demo_disk "never/scanned" "x"
           [("octo/demo",
             CachedRepo_value
               {| issues := [demo_issue 1 (Some "first"); demo_issue 2 None];
                  last_updated := "2024-01-01" |})]);
    try reflexivity; discriminate.
Defined.

(** X13: an analyze request that names a property every object inherits
    ([toString], [constructor], [__proto__], ...) passes for a scanned
    repository without issues whatever the cache holds beside: the
    membership test is true, the lookup finds the inherited value, and the
    answer is 200 with the fixed sentence instead of 404. *)
Theorem analyze_inherited_name
        (llmService : LLMService.service) (api : LLMService.Providers)
        (request : Server.AnalyzeRequest) (fs : Fs.state)
        (name prompt : string) (props : list (string * JSON.value)) :
  Server.analyze_repo request = Some name ->
  In name JSObject.Object_prototype ->
  Server.analyze_prompt request = Some prompt ->
  prompt <> "" ->
  CacheService.loadCache fs = Ok (JSON.Object props) ->
  JSObject.own name props = None ->
  Server.analyze llmService api request fs
  = Some ({| Server.status := 200;
             Server.json := Server.AnalyzeResponse Server.no_issues_sentence |},
          []).
Proof.
  intros Hrepo Hin Hprompt Hp Hload Hown.
  assert (Hinh : JSObject.inherited name = true).
  { unfold JSObject.inherited. apply existsb_exists.
    exists name. split; [exact Hin|apply String.eqb_refl]. }
  assert (Tr : JS.truthy_string name = true).
  { destruct name; [|reflexivity]. discriminate. }
  assert (Tp : JS.truthy_string prompt = true) by (now destruct prompt).
  unfold Server.analyze, Server.missing. rewrite Hrepo, Hprompt.
  cbn [LLMService.truthy_key LLMService.key_of]. rewrite Tr, Tp.
  cbn [negb orb].
  unfold CacheService.hasRepo, CacheService.getIssues. rewrite Hload.
  cbn [bind JSObject.has_property JSObject.get]. rewrite Hown, Hinh.
  reflexivity.
Qed.

Lemma analyze_inherited_name_witness :
  Server.analyze demo_llm demo_api
                 {| Server.analyze_repo := Some "toString";
                    Server.analyze_prompt := Some "x" |} empty_disk
  = Some ({| Server.status := 200;
             Server.json := Server.AnalyzeResponse Server.no_issues_sentence |},
          []).
Proof.
  apply (analyze_inherited_name demo_llm demo_api _ empty_disk "toString" "x" []);
    try reflexivity; try discriminate.
  cbn. tauto.
Defined.

(** X14: after a store that succeeds, on a cache file that [loadCache]
    reads as an object, an analyze request for the same identifier works on
    exactly the issues stored, in their order: it answers with the fixed
    sentence when the list is empty and with the outcome of [analyzeIssues]
    on that list otherwise. *)
Theorem store_then_analyze
        (llmService : LLMService.service) (api : LLMService.Providers)
        (request : Server.AnalyzeRequest) (fs fs' : Fs.state)
        (props : list (string * JSON.value))
        (repo prompt now : string) (l : list GitHubIssue) :
  CacheService.loadCache fs = Ok (JSON.Object props) ->
  CacheService.storeIssues repo l now fs = (Ok tt, fs') ->
  repo <> "__proto__" ->
  Server.analyze_repo request = Some repo ->
  repo <> "" ->
  Server.analyze_prompt request = Some prompt ->
  prompt <> "" ->
  Server.analyze llmService api request fs'
  = Some (analysis_of llmService api repo l prompt).
Proof.
  intros _ Hstore Hproto Hrepo Hr Hprompt Hp.
  apply String.eqb_neq in Hproto.
  destruct (store_then_cached _ _ _ _ _ Hproto Hstore) as [Hhas Hget].
  exact (analyze_entry _ _ _ _ _ _ _ Hrepo Hr Hprompt Hp Hhas Hget).
Qed.

Lemma store_then_analyze_witness :
  Server.analyze demo_llm demo_api
                 {| Server.analyze_repo := Some "octo/demo";
                    Server.analyze_prompt := Some "list themes" |} demo_disk
  = Some ({| Server.status := 200;
             Server.json := Server.AnalyzeResponse "analysis" |},
          [LLMService.AnthropicCall
             "key"
             (claude_request "octo/demo"
                             [demo_issue 1 (Some "first"); demo_issue 2 None]
                             "list themes")]).
Proof.
  rewrite (store_then_analyze
             demo_llm demo_api _ empty_disk demo_disk [] "octo/demo"
             "list themes" "2024-01-01"
             [demo_issue 1 (Some "first"); demo_issue 2 None]);
    try reflexivity; discriminate.
Defined.

(** ** The LLM service *)

(** X15: whatever goes wrong in [analyzeIssues], a failure of the provider,
    an answer without text or a client that is not there, the error thrown
    carries a message that starts with [LLM API error: ]. *)
Theorem analyzeIssues_error_prefix
        (self : LLMService.service) (api : LLMService.Providers)
        (repo : string) (l : list GitHubIssue) (userPrompt message : string) :
  fst (LLMService.analyzeIssues self api repo l userPrompt) = Throw message ->
  exists cause, message = "LLM API error: " ++ cause.
Proof.
  unfold LLMService.analyzeIssues.
  destruct (match LLMService.provider self with
            | LLMService.anthropic => _
            | LLMService.openai => _
            end) as [[analysis|cause] calls]; cbn [fst try_catch];
    [discriminate|].
  intros [= <-]. now exists cause.
Qed.

Lemma analyzeIssues_error_prefix_witness :
  fst (LLMService.analyzeIssues demo_llm failing_api "octo/demo" [] "x")
  = Throw "LLM API error: 401 invalid key".
Proof.
  destruct (analyzeIssues_error_prefix
              demo_llm failing_api "octo/demo" [] "x"
              "LLM API error: 401 invalid key" eq_refl) as (cause & H).
  reflexivity.
Defined.



(** X17: with the OpenAI client, [analyzeIssues] makes one call and returns
    a text exactly when the first choice has a content that is not empty:
    an empty content is an error, unlike an empty text block of
    Anthropic. *)
Theorem analyzeIssues_openai
        (self : LLMService.service) (api : LLMService.Providers)
        (key repo : string) (l : list GitHubIssue) (userPrompt : string) :
  LLMService.provider self = LLMService.openai ->
  LLMService.openaiClient self = Some key ->
  snd (LLMService.analyzeIssues self api repo l userPrompt)
  = [LLMService.OpenAICall key (gpt_request repo l userPrompt)]
  /\ (forall text,
         fst (LLMService.analyzeIssues self api repo l userPrompt) = Ok text
         <-> LLMService.openai_chat_completions_create
               api key (gpt_request repo l userPrompt) = Ok (Some text)
             /\ text <> "")
  /\ (LLMService.openai_chat_completions_create
        api key (gpt_request repo l userPrompt) = Ok (Some "") ->
      fst (LLMService.analyzeIssues self api repo l userPrompt)
      = Throw "LLM API error: No content in OpenAI response").
Proof.
  intros Hprovider Hclient.
  unfold LLMService.analyzeIssues, LLMService.analyzeWithOpenAI.
  rewrite Hprovider, Hclient. cbn [fst snd]. split; [reflexivity|].
  fold (gpt_request repo l userPrompt).
  destruct (LLMService.openai_chat_completions_create api key _)
    as [[content|]|cause]; cbn [bind try_catch].
  - destruct content as [|c content]; cbn [JS.truthy_string String.eqb negb try_catch].
    + split; [|reflexivity]. intros text. split; [discriminate|].
      intros [[= <-] Hne]. now contradiction Hne.
    + split; [|discriminate]. intros text. split.
      * intros [= <-]. split; [reflexivity|discriminate].
      * now intros [[= <-] _].
  - split; [|discriminate]. intros text. split; [discriminate|].
    intros [H _]. discriminate.
  - split; [|discriminate]. intros text. split; [discriminate|].
    intros [H _]. discriminate.
Qed.

Lemma analyzeIssues_openai_witness :
  fst (LLMService.analyzeIssues demo_openai failing_api "octo/demo" [] "x")
  = Throw "LLM API error: No content in OpenAI response".
Proof.
  destruct (analyzeIssues_openai
              demo_openai failing_api "key" "octo/demo" [] "x"
              eq_refl eq_refl) as (_ & _ & Hempty).
  apply Hempty. reflexivity.
Defined.

(** X18: the constructor takes Anthropic when its key is set, OpenAI when
    only that key is set, and throws when neither is; a service it returns
    always has the client of its provider, so that every [analyzeIssues]
    makes exactly one call, to that provider and with that key. *)
Theorem constructor_selects_provider (env : LLMService.Env) :
  match LLMService.constructor env with
  | Ok self =>
      LLMService.getProvider self
      = (if LLMService.truthy_key (LLMService.ANTHROPIC_API_KEY env)
         then LLMService.anthropic else LLMService.openai)
      /\ (LLMService.getProvider self = LLMService.openai ->
          LLMService.truthy_key (LLMService.OPENAI_API_KEY env) = true)
      /\ forall api repo l userPrompt,
           snd (LLMService.analyzeIssues self api repo l userPrompt)
           = [if LLMService.truthy_key (LLMService.ANTHROPIC_API_KEY env)
              then LLMService.AnthropicCall
                     (LLMService.key_of (LLMService.ANTHROPIC_API_KEY env))
                     (claude_request repo l userPrompt)
              else LLMService.OpenAICall
                     (LLMService.key_of (LLMService.OPENAI_API_KEY env))
                     (gpt_request repo l userPrompt)]
  | Throw message =>
      LLMService.truthy_key (LLMService.ANTHROPIC_API_KEY env) = false
      /\ LLMService.truthy_key (LLMService.OPENAI_API_KEY env) = false
      /\ message
         = "Either ANTHROPIC_API_KEY or OPENAI_API_KEY environment variable must be set"
  end.
Proof.
  unfold LLMService.constructor.
  destruct (LLMService.truthy_key (LLMService.ANTHROPIC_API_KEY env)) eqn:Ea.
  - repeat split. intros [=].
  - destruct (LLMService.truthy_key (LLMService.OPENAI_API_KEY env)) eqn:Eo;
      repeat split.
Qed.

(** X19: for an environment with the Anthropic key the service with two
    providers does what the service before it did: the same call and the
    same outcome for every repository, list of issues and prompt. *)
Theorem anthropic_versions_agree
        (env : LLMService.Env) (old : AnthropicLLMService.service) :
  AnthropicLLMService.constructor env = Ok old ->
  exists self,
    LLMService.constructor env = Ok self
    /\ LLMService.getProvider self = LLMService.anthropic
    /\ forall api repo l userPrompt,
         LLMService.analyzeIssues self api repo l userPrompt
         = AnthropicLLMService.analyzeIssues old api repo l userPrompt.
Proof.
  unfold AnthropicLLMService.constructor, LLMService.constructor.
  destruct (LLMService.truthy_key (LLMService.ANTHROPIC_API_KEY env));
    cbn [negb]; [|discriminate].
  intros [= <-]. eexists. split; [reflexivity|]. split; [reflexivity|].
  intros api repo l userPrompt.
  unfold LLMService.analyzeIssues, LLMService.analyzeWithAnthropic,
    AnthropicLLMService.analyzeIssues.
  reflexivity.
Qed.

Lemma anthropic_versions_agree_witness :
  exists self,
    LLMService.constructor
      {| LLMService.ANTHROPIC_API_KEY := Some "key";
         LLMService.OPENAI_API_KEY := Some "other" |} = Ok self
    /\ LLMService.analyzeIssues self demo_api "octo/demo" [] "x"
       = AnthropicLLMService.analyzeIssues
           {| AnthropicLLMService.client := "key" |} demo_api "octo/demo" [] "x".
Proof.
  destruct (anthropic_versions_agree
              {| LLMService.ANTHROPIC_API_KEY := Some "key";
                 LLMService.OPENAI_API_KEY := Some "other" |}
              {| AnthropicLLMService.client := "key" |} eq_refl)
    as (self & Hc & _ & Hsame).
  exists self. split; [exact Hc|apply Hsame].
Defined.

(** ** The cache file stays typed *)

Lemma Cache_value_define (repo : string) (entry : CachedRepo) (cache : Cache) :
  JSON.define repo (CachedRepo_value entry)
              (map (fun kv => (fst kv, CachedRepo_value (snd kv))) cache)
  = map (fun kv => (fst kv, CachedRepo_value (snd kv)))
        (Cache_define repo entry cache).
Proof.
  induction cache as [|[k e] cache IH]; [reflexivity|].
  cbn [map fst snd JSON.define Cache_define].
  destruct (String.eqb k repo); [reflexivity|].
  cbn [map fst snd]. now rewrite IH.
Qed.

(** X20: in every state reached from the empty cache by stores, what
    [loadCache] returns is a cache of the declared type: an object whose
    identifiers are pairwise distinct and whose every entry is a list of
    issues with a time stamp; so /analyze always has an answer for it. *)
Theorem reachable_cache_typed (fs : Fs.state) :
  reachable fs ->
  (exists cache : Cache,
      CacheService.loadCache fs = Ok (Cache_value cache)
      /\ JSON.distinct (map fst cache) = true)
  /\ forall llmService api request,
       Server.analyze llmService api request fs <> None.
Proof.
  intros Hreach.
  assert (Htyped : exists cache : Cache,
             CacheService.loadCache fs = Ok (Cache_value cache)).
  { induction Hreach as [w|repo l now fs _ (cache & Hload)
                          |w fs _ (cache & Hload)].
    - now exists [].
    - unfold Cache_value in Hload.
      rewrite (storeIssues_object _ _ _ _ _ Hload).
      destruct (Fs.writable fs); cbn [snd]; [|now exists cache].
      pose proof (loadCache_well_formed _ _ Hload) as Hwf.
      rewrite loadCache_written
        by (apply well_formed_assigned; [apply well_formed_entry|exact Hwf]).
      unfold assigned.
      destruct (JSObject.own repo _);
        [|destruct (String.eqb repo "__proto__"); [now exists cache|]];
        rewrite Cache_value_define; eexists; reflexivity.
    - exists cache. now rewrite loadCache_permission. }
  destruct Htyped as (cache & Hload). split.
  - exists cache. split; [exact Hload|].
    pose proof (loadCache_well_formed _ _ Hload) as Hwf.
    unfold Cache_value in Hwf. cbn [JSON.well_formed] in Hwf.
    rewrite Cache_value_keys in Hwf.
    now apply andb_true_iff in Hwf as [Hd _].
  - intros llmService api request. unfold Server.analyze.
    destruct (Server.missing _ || Server.missing _); [discriminate|].
    unfold CacheService.hasRepo, CacheService.getIssues. rewrite Hload.
    unfold Cache_value. cbn [bind JSObject.has_property JSObject.get].
    set (repo := LLMService.key_of _).
    destruct (JSObject.own repo _) as [v|] eqn:Hown.
    + assert (Hv : exists entry, v = CachedRepo_value entry).
      { clear - Hown. induction cache as [|[k e] cache IH]; [discriminate|].
        cbn [map fst snd JSObject.own] in Hown.
        destruct (String.eqb k repo); [|exact (IH Hown)].
        injection Hown as <-. now exists e. }
      destruct Hv as (entry & ->).
      unfold CachedRepo_value.
      cbn [JSObject.or_null JSObject.truthy JSObject.truthy_json negb
           JSObject.member JSObject.own String.eqb Ascii.eqb Bool.eqb].
      destruct (issues entry) as [|issue l]; [discriminate|].
      cbn [map Server.length_is_zero orb Server.typed_issues].
      rewrite <- map_cons, as_issues_value.
      destruct (LLMService.analyzeIssues _ _ _ _ _) as [[a|m] calls];
        discriminate.
    + destruct (JSObject.inherited repo); discriminate.
Qed.

(** The sample disk holds a typed cache of one repository. *)
Lemma reachable_cache_typed_witness :
  exists cache : Cache,
    CacheService.loadCache demo_disk = Ok (Cache_value cache)
    /\ JSON.distinct (map fst cache) = true.
Proof.
  apply (reachable_cache_typed demo_disk).
  apply reachable_store, reachable_start.
Defined.
(** ** Pull requests are never fetched nor cached *)

Lemma to_issue_projected (item : GitHubService.Item) :
  GitHubService.to_issue item = projected item.
Proof.
  unfold GitHubService.to_issue, projected, GitHubService.or_else.
  destruct (GitHubService.item_body item) as [[|c text]|]; reflexivity.
Qed.

Lemma kept_projected (data : list GitHubService.Item) :
  kept data
  = map projected
        (filter (fun item => negb (GitHubService.pull_request item)) data).
Proof. unfold kept. apply map_ext, to_issue_projected. Qed.

(** C5: against a host that lists its pages, the fetcher returns the
    elements that carry no pull-request marker, in their order, each as the
    issue made of its number, title, link and creation time and of its
    body, the empty string when that is missing; an element with the marker
    yields no issue.  A scan of a repository of the checked format, on a
    cache file that holds an object and can be written, stores exactly this
    sequence, and the lookup right after it returns it. *)
Theorem fetch_skips_pull_requests
        (host : GitHubService.Host) (repo : string)
        (pages : list (list GitHubService.Item)) (fuel : nat) :
  serves host repo 1 pages ->
  List.length pages < fuel ->
  exists fetched sent,
    GitHubService.fetchAllIssues fuel host repo = Some (Ok fetched, sent)
    /\ fetched
       = map projected
             (filter (fun item => negb (GitHubService.pull_request item))
                     (List.concat pages))
    /\ (forall issue,
           In issue fetched <->
           exists item,
             In item (List.concat pages)
             /\ GitHubService.pull_request item = false
             /\ issue = projected item)
    /\ (forall now request fs props,
           Server.scan_repo request = Some repo ->
           GitHubService.validateRepoFormat repo = true ->
           CacheService.loadCache fs = Ok (JSON.Object props) ->
           Fs.writable fs = true ->
           exists fs',
             Server.scan fuel host now request fs
             = Some ({| Server.status := 200;
                        Server.json :=
                          Server.ScanResponse repo (List.length fetched)
                                              true |},
                     fs', sent)
             /\ CacheService.getIssues repo fs'
                = Ok (JSObject.Json
                        (CachedRepo_value
                           {| issues := fetched; last_updated := now |}))
             /\ Server.typed_issues
                  (JSObject.member
                     (JSObject.Json
                        (CachedRepo_value
                           {| issues := fetched; last_updated := now |}))
                     "issues")
                = Some fetched).
Proof.
  intros Hs Hf.
  pose proof (fetchAllIssues_serves _ _ _ _ Hs Hf) as Hfetch.
  rewrite kept_projected in Hfetch.
  do 2 eexists. split; [exact Hfetch|]. split; [reflexivity|]. split.
  - intros issue. rewrite in_map_iff. split.
    + intros (item & <- & Hin). apply filter_In in Hin as (Hin & Hpr).
      exists item. rewrite negb_true_iff in Hpr. auto.
    + intros (item & Hin & Hpr & ->). exists item. split; [reflexivity|].
      apply filter_In. rewrite Hpr. auto.
  - intros now request fs props Hrepo Hvalid Hload Hw.
    set (fetched := map projected _) in *.
    pose proof (storeIssues_object repo fetched now fs props Hload) as Hstore.
    rewrite Hw in Hstore.
    eexists. split; [|split].
    + unfold Server.scan, Server.missing. rewrite Hrepo.
      cbn [LLMService.truthy_key LLMService.key_of].
      rewrite (validateRepoFormat_truthy _ Hvalid), Hvalid. cbn [negb].
      rewrite Hfetch, Hstore. reflexivity.
    + exact (proj2 (store_then_cached _ _ _ _ _
                      (validateRepoFormat_not_proto _ Hvalid) Hstore)).
    + cbn. apply as_issues_value.
Qed.

(** On the sample host: the pull requests 2 and 4 are gone, the missing
    body of 3 is the empty string, and the titles are the elements'. *)
Lemma fetch_skips_pull_requests_witness :
  exists fetched sent,
    GitHubService.fetchAllIssues 4 demo_host "octo/demo"
    = Some (Ok fetched, sent)
    /\ map id fetched = [1; 3; 5]%Z
    /\ map title fetched = ["t"; "t"; "t"]
    /\ map body fetched = [Some "first"; Some ""; Some ""].
Proof.
  destruct (fetch_skips_pull_requests demo_host "octo/demo" demo_pages 4)
    as (fetched & sent & E & -> & _).
  - simpl. repeat split; discriminate.
  - simpl. lia.
  - eexists. exists sent. split; [exact E|]. repeat split; reflexivity.
Defined.

(** ** Membership and lookup agree *)






